(** * The [counter] loadable builtin of flyline (custom_builtin/counter.c)

    A shallow embedding of [parse_number] and [counter_builtin] together
    with the parts of the C library and of the host shell they call, and
    the properties of the counter command surface proved over it.

    Conventions of the embedding:
    - a C string is the [string] of its characters before the terminating
      NUL, so [*p != '\0'] reads "the rest at [p] is not empty";
    - [long] is 64 bits wide (LP64); its values are the integers between
      [LONG_MIN] and [LONG_MAX], and [+=] / [-=] are two's-complement
      (the result is reduced by [wrap_long]);
    - the process state touched by the builtin (the static counter, the two
      output channels and the shell's input source) is one record, threaded
      through the code by a state monad. *)

From Stdlib Require Import ZArith String Ascii List Bool Lia.
From Stdlib Require Import DecimalString.
From Stdlib Require Import Permutation.
From Stdlib Require Import DecimalPos.
Import ListNotations.

Local Open Scope string_scope.
Local Open Scope Z_scope.

(** ** The [long] type *)

Module Long.

Definition LONG_MAX : Z := 9223372036854775807.
Definition LONG_MIN : Z := -9223372036854775808.

(** The values a [long] can hold. *)
Definition in_range (z : Z) : Prop := LONG_MIN <= z <= LONG_MAX.

(** Reduction of an exact result to the 64-bit two's-complement value. *)
Definition wrap_long (z : Z) : Z := (z + 2 ^ 63) mod 2 ^ 64 - 2 ^ 63.

(** Saturation at the ends of the range, as [strtol] does it. *)
Definition clamp (z : Z) : Z :=
  if LONG_MAX <? z then LONG_MAX
  else if z <? LONG_MIN then LONG_MIN
  else z.

(** [a += b] and [a -= b] on [long]: the exact result reduced to 64 bits;
    [add_exact] and [sub_exact] below give the case without overflow. *)
Definition add (a b : Z) : Z := wrap_long (a + b).
Definition sub (a b : Z) : Z := wrap_long (a - b).

End Long.

(** ** The C library functions the builtin calls *)

Module Libc.

Definition newline : string := String (ascii_of_nat 10) EmptyString.

(** [isspace] in the C locale: space, and the controls 9 to 13. *)
Definition isspace (c : ascii) : bool :=
  let n := Z.of_nat (nat_of_ascii c) in
  (n =? 32) || ((9 <=? n) && (n <=? 13)).

Definition isdigit (c : ascii) : bool :=
  let n := Z.of_nat (nat_of_ascii c) in
  (48 <=? n) && (n <=? 57).

Definition digit_value (c : ascii) : Z := Z.of_nat (nat_of_ascii c) - 48.

Definition is_sign (c : ascii) : bool :=
  Ascii.eqb c "+"%char || Ascii.eqb c "-"%char.

Fixpoint skip_space (s : string) : string :=
  match s with
  | String c rest => if isspace c then skip_space rest else s
  | EmptyString => s
  end.

(** The digit loop of [strtol]: consumes the longest run of decimal digits
    and returns the accumulated value with the unread rest. *)
Fixpoint scan_digits (acc : Z) (s : string) : Z * string :=
  match s with
  | String c rest =>
      if isdigit c then scan_digits (10 * acc + digit_value c) rest
      else (acc, s)
  | EmptyString => (acc, s)
  end.

(** What [strtol (nptr, &endptr, 10)] hands back: the converted value, the
    rest of the string at [endptr], and whether [errno] was set to
    [ERANGE]. *)
Record strtol_result : Type := mk_strtol {
  val : Z;
  endptr : string;
  erange : bool
}.

(** The optional sign in front of the digits. *)
Definition read_sign (s : string) : bool * string :=
  match s with
  | String c rest =>
      if Ascii.eqb c "-"%char then (true, rest)
      else if Ascii.eqb c "+"%char then (false, rest)
      else (false, s)
  | EmptyString => (false, s)
  end.

(** The conversion proper.  Without a digit nothing is converted: the
    value is 0 and [endptr] is [nptr].  A value outside [long] is replaced
    by [LONG_MAX] or [LONG_MIN] and flagged. *)
Definition convert (nptr : string) (negative : bool) (body : string)
  : strtol_result :=
  match body with
  | String c _ =>
      if isdigit c then
        let '(acc, rest) := scan_digits 0 body in
        let exact := if negative then - acc else acc in
        mk_strtol (Long.clamp exact) rest
                  ((Long.LONG_MAX <? exact) || (exact <? Long.LONG_MIN))
      else mk_strtol 0 nptr false
  | EmptyString => mk_strtol 0 nptr false
  end.

(** [strtol] in base 10: leading white space is skipped, one sign is
    accepted, then the digits are read. *)
Definition strtol (nptr : string) : strtol_result :=
  let '(negative, body) := read_sign (skip_space nptr) in
  convert nptr negative body.

(** The text [printf] produces for a [%ld] conversion. *)
Definition format_ld (v : Z) : string := NilZero.string_of_int (Z.to_int v).

End Libc.

(** ** The host shell *)

Module Bash.

(** Modelled from the spec: the exit statuses of bash's shell.h, which is
    not among the sources; success is status zero and failure is a
    non-zero status. *)
Definition EXECUTION_SUCCESS : Z := 0.
Definition EXECUTION_FAILURE : Z := 1.

(** An argument list: the words of the command after its name.  The empty
    list is the null [WORD_LIST] pointer; [list->word->word] is the head
    and [list->next] the tail. *)
Definition WORD_LIST : Type := list string.

(** The calls of [builtin_error] in counter.c, one constructor per call
    site, carrying the value of the [%s] argument. *)
Inductive diagnostic : Type :=
| numeric_argument_required (str : string)
| set_numeric_argument_required
| invalid_operation (operation : string).

(** The message of each diagnostic, after formatting. *)
Definition message (d : diagnostic) : string :=
  match d with
  | numeric_argument_required str => str ++ ": numeric argument required"
  | set_numeric_argument_required => "set: numeric argument required"
  | invalid_operation operation =>
      operation ++ ": invalid operation (use: inc, dec, set, reset, or get)"
  end.

(** Where the shell reads its input from: its own reader, or the
    [jobu_get] / [jobu_unget] pair installed by [init_yy_io]. *)
Inductive input_source : Type :=
| shell_reader
| jobu_reader (name : string).

(** The state the builtin reads and writes. *)
Record state : Type := mk_state {
  counter_value : Z;
  stdout : string;
  stderr : list diagnostic;
  bash_input : input_source
}.

(** Computations over the state. *)
Definition M (A : Type) : Type := state -> A * state.

Definition ret {A : Type} (a : A) : M A := fun w => (a, w).

Definition bind {A B : Type} (m : M A) (k : A -> M B) : M B :=
  fun w => let '(a, w') := m w in k a w'.

Definition printf (text : string) : M unit :=
  fun w => (tt, mk_state (counter_value w) (stdout w ++ text)
                         (stderr w) (bash_input w)).

Definition builtin_error (d : diagnostic) : M unit :=
  fun w => (tt, mk_state (counter_value w) (stdout w)
                         (stderr w ++ [d]) (bash_input w)).

(** [fflush (stdout)]: the text is already in [stdout]. *)
Definition fflush_stdout : M unit := ret tt.

Definition init_yy_io (src : input_source) : M unit :=
  fun w => (tt, mk_state (counter_value w) (stdout w) (stderr w) src).

Definition get_counter : M Z := fun w => (counter_value w, w).

Definition set_counter (v : Z) : M unit :=
  fun w => (tt, mk_state v (stdout w) (stderr w) (bash_input w)).

End Bash.

Declare Scope cmd_scope.
Delimit Scope cmd_scope with cmd.
Notation "x <- m ;; k" := (Bash.bind m (fun x => k))
  (at level 61, m at next level, right associativity) : cmd_scope.
Notation "m ;; k" := (Bash.bind m (fun _ => k))
  (at level 61, right associativity) : cmd_scope.

(** ** counter.c *)

Module Counter.
Import Long Libc Bash.
Local Open Scope cmd_scope.

(** [parse_number (str, &value)]: [Some v] when it returns 1 having stored
    [v], [None] when it returns 0.  An empty string is refused silently;
    otherwise the whole string must have been consumed by [strtol].  The
    range flag of [strtol] is not looked at. *)
Definition parse_number (str : string) : M (option Z) :=
  match str with
  | EmptyString => ret None
  | String _ _ =>
      let r := strtol str in
      match endptr r with
      | String _ _ =>
          builtin_error (numeric_argument_required str) ;;
          ret None
      | EmptyString => ret (Some (val r))
      end
  end.

(** [printf ("%ld\n", counter_value)]. *)
Definition print_counter : M unit :=
  v <- get_counter ;; printf (format_ld v ++ newline).

(** The optional operand of [inc] and [dec]: 1 when [list->next] is null,
    else whatever [parse_number] makes of the next word. *)
Definition operand_or_one (next : WORD_LIST) : M (option Z) :=
  match next with
  | [] => ret (Some 1)
  | arg :: _ => parse_number arg
  end.

Definition counter_builtin (list : WORD_LIST) : M Z :=
  match list with
  | [] =>
      print_counter ;; fflush_stdout ;; ret EXECUTION_SUCCESS
  | operation :: next =>
      if String.eqb operation "setinput" then
        init_yy_io (jobu_reader "jobu stdin") ;;
        printf ("Input set to jobu" ++ newline) ;;
        fflush_stdout ;; ret EXECUTION_SUCCESS
      else if String.eqb operation "inc" || String.eqb operation "increment"
      then
        parsed <- operand_or_one next ;;
        match parsed with
        | None => ret EXECUTION_FAILURE
        | Some value =>
            v <- get_counter ;; set_counter (Long.add v value) ;;
            print_counter ;; fflush_stdout ;; ret EXECUTION_SUCCESS
        end
      else if String.eqb operation "dec" || String.eqb operation "decrement"
      then
        parsed <- operand_or_one next ;;
        match parsed with
        | None => ret EXECUTION_FAILURE
        | Some value =>
            v <- get_counter ;; set_counter (Long.sub v value) ;;
            print_counter ;; fflush_stdout ;; ret EXECUTION_SUCCESS
        end
      else if String.eqb operation "set" then
        match next with
        | [] =>
            builtin_error set_numeric_argument_required ;;
            ret EXECUTION_FAILURE
        | arg :: _ =>
            parsed <- parse_number arg ;;
            match parsed with
            | None => ret EXECUTION_FAILURE
            | Some value =>
                set_counter value ;;
                print_counter ;; fflush_stdout ;; ret EXECUTION_SUCCESS
            end
        end
      else if String.eqb operation "reset" then
        set_counter 0 ;;
        print_counter ;; fflush_stdout ;; ret EXECUTION_SUCCESS
      else if String.eqb operation "get" then
        print_counter ;; fflush_stdout ;; ret EXECUTION_SUCCESS
      else
        parsed <- parse_number operation ;;
        match parsed with
        | None =>
            builtin_error (invalid_operation operation) ;;
            ret EXECUTION_FAILURE
        | Some value =>
            set_counter value ;;
            print_counter ;; fflush_stdout ;; ret EXECUTION_SUCCESS
        end
  end.

(** [counter_builtin_load]: announces itself and zeroes the counter. *)
Definition counter_builtin_load : M Z :=
  printf ("Counter builtin loaded. Initializing counter to 0." ++ newline) ;;
  set_counter 0 ;; ret 1.

(** A shell that has just started: nothing written, its own reader. *)
Definition fresh (v : Z) : state := mk_state v "" [] shell_reader.

End Counter.

(** ** The vocabulary of the command surface

    The words the properties below are phrased in: the shape of a numeric
    argument, the three kinds of error, and what it means for an invocation
    to be refused. *)

Module Contract.
Import Long Libc Bash Counter.

Fixpoint all_digits (s : string) : bool :=
  match s with
  | String c rest => isdigit c && all_digits rest
  | EmptyString => true
  end.

(** A string with no character other than decimal digits, apart from one
    sign that may come first. *)
Definition sign_then_digits (s : string) : bool :=
  match s with
  | String c rest => if is_sign c then all_digits rest else all_digits s
  | EmptyString => true
  end.

(** The number a run of digits denotes, by position. *)
Fixpoint decimal_value (ds : string) : Z :=
  match ds with
  | String c rest =>
      digit_value c * 10 ^ Z.of_nat (String.length rest) + decimal_value rest
  | EmptyString => 0
  end.

(** The number denoted by a sign (empty, plus or minus) and digits. *)
Definition signed_value (sign ds : string) : Z :=
  if String.eqb sign "-" then - decimal_value ds else decimal_value ds.

Inductive error_kind : Type :=
| MissingArgument
| InvalidArgument
| UnknownOperation.

Definition kind_of (d : diagnostic) : error_kind :=
  match d with
  | numeric_argument_required _ => InvalidArgument
  | set_numeric_argument_required => MissingArgument
  | invalid_operation _ => UnknownOperation
  end.

(** The diagnostics written between two states of the error channel. *)
Definition written (before after : state) : list diagnostic :=
  skipn (List.length (stderr before)) (stderr after).

(** The kind of error an invocation reports: that of the last diagnostic
    it wrote, if it wrote any. *)
Definition reported (before after : state) : option error_kind :=
  match rev (written before after) with
  | d :: _ => Some (kind_of d)
  | [] => None
  end.

(** The invocation fails with an error of kind [k] and the counter keeps
    its value. *)
Definition rejects (k : error_kind) (list : WORD_LIST) (w : state) : Prop :=
  let r := counter_builtin list w in
  fst r = EXECUTION_FAILURE /\
  reported w (snd r) = Some k /\
  counter_value (snd r) = counter_value w.

(** The command words of the table of commands. *)
Definition table_keywords : list string :=
  ["inc"; "increment"; "dec"; "decrement"; "set"; "reset"; "get"].

(** Every word [counter_builtin] compares its first argument with. *)
Definition dispatch_keywords : list string := "setinput" :: table_keywords.

Definition increment_words : list string := ["inc"; "increment"].
Definition decrement_words : list string := ["dec"; "decrement"].

(** The commands that take a numeric argument. *)
Definition numeric_commands : list string :=
  increment_words ++ decrement_words ++ ["set"].

(** A sequence of invocations, each starting in the state the previous one
    left; the status and the state after every one of them. *)
Fixpoint session (cmds : list WORD_LIST) (w : state) : list (Z * state) :=
  match cmds with
  | [] => []
  | c :: cs => let r := counter_builtin c w in r :: session cs (snd r)
  end.

(** What an observer sees of one step: status, counter and standard
    output. *)
Definition observe (r : Z * state) : Z * Z * string :=
  (fst r, counter_value (snd r), stdout (snd r)).

(** The state after the counter has been given the value [v] and that
    value has been printed. *)
Definition shown (v : Z) (w : state) : state :=
  mk_state v (stdout w ++ format_ld v ++ newline) (stderr w) (bash_input w).

(** The state after one more diagnostic. *)
Definition complained (d : diagnostic) (w : state) : state :=
  mk_state (counter_value w) (stdout w) (stderr w ++ [d]) (bash_input w).

(** The three ways [parse_number] can end. *)
Inductive parse_outcome (str : string) (w : state)
  : option Z * state -> Prop :=
| parse_stored (v : Z) :
    in_range v -> parse_outcome str w (Some v, w)
| parse_empty :
    str = "" -> parse_outcome str w (None, w)
| parse_refused :
    str <> "" ->
    parse_outcome str w (None, complained (numeric_argument_required str) w).

End Contract.

(** ** The scripted input reader of counter.c: [jobu_get], [jobu_unget]

    The reader keeps one heap block, [current_jobu_line], and a position
    in it, [current_jobu_line_index].  A block is the list of its bytes;
    reading or writing outside of it has no defined result, which is
    [None] here, as is running out of the recursion budget given to
    [jobu_get]. *)

Module Jobu.
Import Libc Bash.

Definition EOF : Z := -1.

Definition NUL : ascii := Ascii.zero.

Definition input_str : string := "echo hello && sleep 1".

Definition prompt : string := "my prompt here>".

(** The byte at a position of a block, if the position is inside. *)
Definition load (block : list ascii) (i : Z) : option ascii :=
  if i <? 0 then None else nth_error block (Z.to_nat i).

(** The block after one byte has been written, if the position is
    inside. *)
Definition store (block : list ascii) (i : Z) (c : ascii)
  : option (list ascii) :=
  if (0 <=? i) && (i <? Z.of_nat (List.length block)) then
    Some (firstn (Z.to_nat i) block ++ c :: skipn (S (Z.to_nat i)) block)%list
  else None.

(** [strcpy (dst, src)] into a block large enough: the characters of
    [src] and the terminating NUL, the bytes behind them left alone. *)
Definition strcpy (dst : list ascii) (src : string) : list ascii :=
  (list_ascii_of_string src ++ [NUL]
   ++ skipn (S (String.length src)) dst)%list.

(** The conversion of an [int] to the [char] that is stored: its low
    eight bits. *)
Definition char_of_int (c : Z) : ascii :=
  ascii_of_N (Z.to_N (c mod 256)).

(** The conversion of an [unsigned char] to the [int] returned. *)
Definition int_of_uchar (c : ascii) : Z := Z.of_N (N_of_ascii c).

Record jobu_state : Type := mk_jobu {
  process : state;
  current_jobu_line : option (list ascii);
  current_jobu_line_index : Z
}.

(** The block [jobu_get] builds when it has none: [malloc (line_len + 2)]
    (every byte of which is written below before it is read, so the
    indeterminate contents are stood for by NUL bytes), [strcpy], then the
    newline at [line_len] and the NUL behind it. *)
Definition new_line : option (list ascii) :=
  let line_len := Z.of_nat (String.length input_str) in
  let block := repeat NUL (String.length input_str + 2) in
  let block := strcpy block input_str in
  match store block line_len "010"%char with
  | Some block => store block (line_len + 1) NUL
  | None => None
  end.

(** [jobu_get ()].  [malloc_ok] tells whether [malloc] returns a block,
    should it be called. *)
Fixpoint jobu_get (fuel : nat) (malloc_ok : bool) (j : jobu_state)
  : option (Z * jobu_state) :=
  match fuel with
  | O => None
  | S fuel' =>
      let read (j : jobu_state) (line : list ascii) :=
        match load line (current_jobu_line_index j) with
        | None => None
        | Some c =>
            if Ascii.eqb c NUL then
              jobu_get fuel' malloc_ok
                       (mk_jobu (process j) None (current_jobu_line_index j))
            else
              Some (int_of_uchar c,
                    mk_jobu (process j) (Some line)
                            (current_jobu_line_index j + 1))
        end in
      match current_jobu_line j with
      | None =>
          let p := snd (printf prompt (process j)) in
          if malloc_ok then
            match new_line with
            | Some line => read (mk_jobu p (Some line) 0) line
            | None => None
            end
          else Some (EOF, mk_jobu p None (current_jobu_line_index j))
      | Some line => read j line
      end
  end.

(** [jobu_unget (c)]. *)
Definition jobu_unget (c : Z) (j : jobu_state) : option (Z * jobu_state) :=
  match current_jobu_line j with
  | Some line =>
      if current_jobu_line_index j =? 0 then Some (c, j)
      else
        match store line (current_jobu_line_index j - 1) (char_of_int c) with
        | Some line' =>
            Some (c, mk_jobu (process j) (Some line')
                             (current_jobu_line_index j - 1))
        | None => None
        end
  | None => Some (c, j)
  end.

(** The reader before its first use: no block, position 0. *)
Definition unused (p : state) : jobu_state := mk_jobu p None 0.

(** The size of every block the reader allocates. *)
Definition block_size : Z := Z.of_nat (String.length input_str) + 2.

(** The shape the reader keeps its variables in: a block, if there is
    one, has the allocated size and a NUL in its last byte, and the
    position is inside the block. *)
Definition well_formed (j : jobu_state) : bool :=
  match current_jobu_line j with
  | None => true
  | Some line =>
      (Z.of_nat (List.length line) =? block_size)
      && match load line (block_size - 1) with
         | Some c => Ascii.eqb c NUL
         | None => false
         end
      && (0 <=? current_jobu_line_index j)
      && (current_jobu_line_index j <? block_size)
  end.

(** Whether a character is waiting at the position. *)
Definition has_unread (j : jobu_state) : bool :=
  match current_jobu_line j with
  | None => false
  | Some line =>
      match load line (current_jobu_line_index j) with
      | Some c => negb (Ascii.eqb c NUL)
      | None => false
      end
  end.

(** [n] calls of [jobu_get] in a row, [malloc] always succeeding: the
    values returned, and the state left. *)
Fixpoint read_chars (n : nat) (j : jobu_state)
  : option (list Z * jobu_state) :=
  match n with
  | O => Some ([], j)
  | S n' =>
      match jobu_get 2 true j with
      | Some (c, j') =>
          match read_chars n' j' with
          | Some (cs, j'') => Some (c :: cs, j'')
          | None => None
          end
      | None => None
      end
  end.

(** The block [jobu_get] is expected to build: the characters of
    [input_str], a newline, and the terminating NUL. *)
Definition line_block : list ascii :=
  (list_ascii_of_string (input_str ++ newline) ++ [NUL])%list.

(** The line the reader serves, as the values [jobu_get] returns. *)
Definition line_codes : list Z :=
  map int_of_uchar (list_ascii_of_string (input_str ++ newline)).

(** The state after [v] has been printed [k] times over. *)
Fixpoint printed (k : nat) (text : string) (p : state) : state :=
  match k with
  | O => p
  | S k' => printed k' text (snd (printf text p))
  end.

End Jobu.

(** ** Words for sequences of invocations *)

Module Usage.
Import Long Libc Bash Counter Contract.

Fixpoint all_space (s : string) : bool :=
  match s with
  | String c rest => isspace c && all_space rest
  | EmptyString => true
  end.

(** Leading white space, then one optional sign, then one or more
    decimal digits and nothing else. *)
Definition numeral (s : string) : bool :=
  match skip_space s with
  | String c rest =>
      if is_sign c then all_digits rest && negb (String.eqb rest "")
      else all_digits (String c rest)
  | EmptyString => false
  end.

(** The state a sequence of invocations ends in. *)
Definition run (cmds : list WORD_LIST) (w : state) : state :=
  fold_left (fun w c => snd (counter_builtin c w)) cmds w.

(** A step up or down: the command word, its argument, and the number
    the argument stands for. *)
Record step : Type := mk_step {
  step_op : string;
  step_arg : string;
  step_amount : Z
}.

Definition step_words (st : step) : WORD_LIST := [step_op st; step_arg st].

(** A step is well formed for a state when its word is one of the four
    stepping commands and [parse_number] reads its amount off its
    argument. *)
Definition step_ok (w : state) (st : step) : Prop :=
  In (step_op st) (increment_words ++ decrement_words) /\
  fst (parse_number (step_arg st) w) = Some (step_amount st).

(** What a step adds to the counter. *)
Definition step_delta (st : step) : Z :=
  if existsb (String.eqb (step_op st)) increment_words
  then step_amount st else - step_amount st.

Definition net_delta (steps : list step) : Z :=
  fold_right (fun st acc => step_delta st + acc) 0 steps.

(** What is seen of the counter itself in one step: status and value. *)
Definition status_and_value (r : Z * state) : Z * Z :=
  (fst r, counter_value (snd r)).

(** The result of an invocation carried over to another state with the
    same counter: what was written is appended to what that state holds,
    and the input source is kept unless the invocation replaced it. *)
Definition carried_over (w : state) (r : Z * state) : Z * state :=
  (fst r,
   mk_state (counter_value (snd r))
            (stdout w ++ stdout (snd r))
            (stderr w ++ stderr (snd r))
            match bash_input (snd r) with
            | shell_reader => bash_input w
            | jobu_reader name => jobu_reader name
            end).

(** [counter_builtin_unload]: says goodbye. *)
Definition counter_builtin_unload : M unit :=
  printf ("Counter builtin unloaded." ++ newline).

End Usage.

Import Long Libc Bash Counter Contract.
Import Jobu Usage.

(** Membership of a literal word in a literal list of words. *)
Ltac in_words :=
  unfold numeric_commands, increment_words, decrement_words,
         dispatch_keywords, table_keywords;
  simpl; repeat (first [left; reflexivity | right]).

(** Side conditions of the dispatch lemmas. *)
Ltac side := first [assumption | in_words].

(** The same, failing when the condition does not hold. *)
Ltac settled := solve [assumption | in_words].

(** ** Arithmetic of [long] *)

Section LongFacts.

Lemma wrap_long_in_range (z : Z) : in_range (wrap_long z).
Proof.
  unfold in_range, wrap_long, LONG_MIN, LONG_MAX.
  pose proof (Z.mod_pos_bound (z + 2 ^ 63) (2 ^ 64) ltac:(lia)). lia.
Qed.

Lemma wrap_long_exact (z : Z) : in_range z -> wrap_long z = z.
Proof.
  unfold in_range, wrap_long, LONG_MIN, LONG_MAX. intros Hz.
  rewrite Z.mod_small; lia.
Qed.

Lemma wrap_long_sub_inner (a n : Z) :
  wrap_long (wrap_long a - n) = wrap_long (a - n).
Proof.
  unfold wrap_long. f_equal.
  replace ((a + 2 ^ 63) mod 2 ^ 64 - 2 ^ 63 - n + 2 ^ 63)
    with ((a + 2 ^ 63) mod 2 ^ 64 - n) by lia.
  rewrite Zminus_mod_idemp_l. f_equal. lia.
Qed.

Lemma add_then_sub (v n : Z) : in_range v -> Long.sub (Long.add v n) n = v.
Proof.
  intros Hv. unfold Long.sub, Long.add.
  rewrite wrap_long_sub_inner.
  replace (v + n - n) with v by lia.
  now apply wrap_long_exact.
Qed.

Lemma add_exact (v n : Z) : in_range (v + n) -> Long.add v n = v + n.
Proof. apply wrap_long_exact. Qed.

Lemma sub_exact (v n : Z) : in_range (v - n) -> Long.sub v n = v - n.
Proof. apply wrap_long_exact. Qed.

Lemma clamp_in_range (z : Z) : in_range (clamp z).
Proof.
  unfold clamp, in_range.
  destruct (Z.ltb_spec LONG_MAX z); [unfold LONG_MIN, LONG_MAX; lia|].
  destruct (Z.ltb_spec z LONG_MIN); unfold LONG_MIN, LONG_MAX in *; lia.
Qed.

Lemma clamp_above (z : Z) : LONG_MAX < z -> clamp z = LONG_MAX.
Proof.
  intros H. unfold clamp. now destruct (Z.ltb_spec LONG_MAX z); [|lia].
Qed.

Lemma clamp_below (z : Z) : z < LONG_MIN -> clamp z = LONG_MIN.
Proof.
  intros H. unfold clamp.
  destruct (Z.ltb_spec LONG_MAX z); [unfold LONG_MIN, LONG_MAX in *; lia|].
  now destruct (Z.ltb_spec z LONG_MIN); [|lia].
Qed.

End LongFacts.

(** ** The number parser of the C library *)

Section StrtolFacts.

Lemma digit_is_plain (c : ascii) :
  isdigit c = true ->
  isspace c = false /\ Ascii.eqb c "-" = false /\ Ascii.eqb c "+" = false.
Proof.
  destruct c as [[] [] [] [] [] [] [] []]; vm_compute; intros H;
    try discriminate H; repeat split.
Qed.

Lemma skip_space_nonempty (s : string) c rest :
  skip_space s = String c rest -> s <> EmptyString.
Proof. destruct s; simpl; congruence. Qed.

(** On a run of digits the loop reads everything and computes the
    positional value, shifted in behind what was accumulated before. *)
Lemma scan_digits_all_digits (ds : string) : forall acc,
  all_digits ds = true ->
  scan_digits acc ds
  = (acc * 10 ^ Z.of_nat (String.length ds) + decimal_value ds, EmptyString).
Proof.
  induction ds as [|c rest IH]; intros acc Hd.
  - simpl. f_equal. lia.
  - cbn [all_digits] in Hd. apply andb_true_iff in Hd as [Hc Hrest].
    cbn [scan_digits]. rewrite Hc, (IH _ Hrest).
    f_equal. cbn [String.length decimal_value].
    rewrite Nat2Z.inj_succ, Z.pow_succ_r by lia. ring.
Qed.

(** If some character is not a digit the loop stops in front of it. *)
Lemma scan_digits_leftover (s : string) : forall acc,
  all_digits s = false ->
  exists c rest, snd (scan_digits acc s) = String c rest.
Proof.
  induction s as [|c rest IH]; intros acc Hd; [discriminate|].
  cbn [all_digits] in Hd. cbn [scan_digits].
  destruct (isdigit c); [|now exists c, rest].
  apply IH. exact Hd.
Qed.

Lemma convert_leftover (nptr body : string) (negative : bool) :
  nptr <> EmptyString ->
  all_digits body = false ->
  exists c rest, endptr (convert nptr negative body) = String c rest.
Proof.
  intros Hn Hd. unfold convert. destruct body as [|c rest]; [discriminate|].
  destruct (isdigit c).
  - destruct (scan_digits_leftover (String c rest) 0 Hd) as (c' & r' & E).
    destruct (scan_digits 0 (String c rest)) as [acc left].
    simpl in E |- *. eauto.
  - destruct nptr; [congruence|]. simpl. eauto.
Qed.

(** [strtol] leaves something unread whenever the string, once its leading
    white space is dropped, is not a sign followed by digits only. *)
Lemma strtol_leftover (s : string) :
  sign_then_digits (skip_space s) = false ->
  exists c rest, endptr (strtol s) = String c rest.
Proof.
  intros H. unfold strtol.
  destruct (skip_space s) as [|c rest] eqn:Es; [discriminate|].
  pose proof (skip_space_nonempty _ _ _ Es) as Hs.
  cbn [sign_then_digits] in H. unfold is_sign in H. cbn [read_sign].
  destruct (Ascii.eqb c "-") eqn:Eminus.
  - rewrite orb_true_r in H. now apply convert_leftover.
  - destruct (Ascii.eqb c "+") eqn:Eplus; cbn [orb] in H;
      now apply convert_leftover.
Qed.

Lemma convert_in_range nptr negative body :
  in_range (val (convert nptr negative body)).
Proof.
  assert (Z0 : in_range 0) by (unfold in_range, LONG_MIN, LONG_MAX; lia).
  unfold convert. destruct body as [|c rest]; [exact Z0|].
  destruct (isdigit c); [|exact Z0].
  destruct (scan_digits 0 (String c rest)) as [acc left].
  apply clamp_in_range.
Qed.

Lemma strtol_in_range (s : string) : in_range (val (strtol s)).
Proof.
  unfold strtol. destruct (read_sign (skip_space s)) as [negative body].
  apply convert_in_range.
Qed.

Lemma convert_digits nptr negative (ds : string) :
  all_digits ds = true -> ds <> "" ->
  convert nptr negative ds
  = let exact := if negative then - decimal_value ds else decimal_value ds in
    mk_strtol (clamp exact) ""
              ((LONG_MAX <? exact) || (exact <? LONG_MIN)).
Proof.
  intros Hd Hne. destruct ds as [|c rest]; [congruence|].
  pose proof Hd as Hc. cbn [all_digits] in Hc.
  apply andb_true_iff in Hc as [Hc _].
  pose proof (scan_digits_all_digits _ 0 Hd) as Hscan.
  rewrite Z.mul_0_l, Z.add_0_l in Hscan.
  unfold convert. rewrite Hc, Hscan. reflexivity.
Qed.

(** A sign (or none) and at least one digit: everything is read, and the
    value is the denoted number, saturated. *)
Lemma strtol_sign_digits (sign ds : string) :
  In sign [""; "+"; "-"] ->
  all_digits ds = true -> ds <> "" ->
  strtol (sign ++ ds)
  = mk_strtol (clamp (signed_value sign ds)) ""
              ((LONG_MAX <? signed_value sign ds)
               || (signed_value sign ds <? LONG_MIN)).
Proof.
  intros Hs Hd Hne. unfold strtol, signed_value.
  destruct Hs as [<-|[<-|[<-|[]]]].
  - destruct ds as [|c rest]; [congruence|].
    pose proof Hd as Hc. cbn [all_digits] in Hc.
    apply andb_true_iff in Hc as [Hc _].
    destruct (digit_is_plain c Hc) as (Hsp & Hminus & Hplus).
    cbn [append skip_space read_sign String.eqb].
    rewrite Hsp. cbn [read_sign]. rewrite Hminus, Hplus.
    now rewrite convert_digits.
  - change (read_sign (skip_space ("+" ++ ds))) with (false, ds).
    cbv beta iota. now rewrite convert_digits.
  - change (read_sign (skip_space ("-" ++ ds))) with (true, ds).
    cbv beta iota. now rewrite convert_digits.
Qed.

End StrtolFacts.

(** ** [parse_number] *)

Section ParseNumberFacts.

Lemma parse_number_outcome (str : string) (w : state) :
  parse_outcome str w (parse_number str w).
Proof.
  unfold parse_number. destruct str as [|c rest]; [now constructor|].
  destruct (endptr (strtol (String c rest))) eqn:E.
  - constructor. apply strtol_in_range.
  - now constructor.
Qed.

(** Whether a string is accepted does not depend on the state. *)
Lemma parse_number_stateless (str : string) (w w' : state) :
  fst (parse_number str w) = fst (parse_number str w').
Proof.
  unfold parse_number. destruct str as [|c rest]; [reflexivity|].
  now destruct (endptr (strtol (String c rest))).
Qed.

(** An accepted string leaves the state alone. *)
Lemma parse_number_accepts (str : string) (w : state) (n : Z) :
  fst (parse_number str w) = Some n -> parse_number str w = (Some n, w).
Proof.
  destruct (parse_number_outcome str w); simpl; congruence.
Qed.

Lemma parse_number_accepted_in_range (str : string) (w : state) (n : Z) :
  fst (parse_number str w) = Some n -> in_range n.
Proof.
  destruct (parse_number_outcome str w); simpl; congruence.
Qed.

(** A refusal changes nothing but the error channel. *)
Lemma parse_number_frame (str : string) (w : state) :
  counter_value (snd (parse_number str w)) = counter_value w /\
  stdout (snd (parse_number str w)) = stdout w /\
  bash_input (snd (parse_number str w)) = bash_input w.
Proof. destruct (parse_number_outcome str w); now simpl. Qed.

Lemma parse_number_refuses (s : string) (w : state) :
  sign_then_digits (skip_space s) = false ->
  parse_number s w = (None, complained (numeric_argument_required s) w).
Proof.
  intros H. destruct (strtol_leftover s H) as (c & rest & E).
  unfold parse_number. destruct s as [|c0 s0]; [discriminate H|].
  now rewrite E.
Qed.

Lemma parse_number_sign_digits (sign ds : string) (w : state) :
  In sign [""; "+"; "-"] ->
  all_digits ds = true -> ds <> "" ->
  parse_number (sign ++ ds) w = (Some (clamp (signed_value sign ds)), w).
Proof.
  intros Hs Hd Hne. unfold parse_number.
  rewrite (strtol_sign_digits sign ds Hs Hd Hne).
  destruct (sign ++ ds) eqn:E; [|reflexivity].
  destruct sign, ds; simpl in E; congruence.
Qed.

(** No word the dispatcher knows is a number. *)
Lemma keyword_not_number (k : string) (w : state) :
  In k dispatch_keywords -> fst (parse_number k w) = None.
Proof.
  unfold dispatch_keywords, table_keywords. simpl.
  intros H. repeat (destruct H as [<-|H]; [reflexivity|]). destruct H.
Qed.

End ParseNumberFacts.

(** ** The error channel *)

Section Reporting.

Lemma written_after (w w' : state) (ds : list diagnostic) :
  stderr w' = (stderr w ++ ds)%list -> written w w' = ds.
Proof.
  intros E. unfold written. rewrite E, skipn_app, skipn_all, Nat.sub_diag.
  reflexivity.
Qed.

Lemma reported_last (w w' : state) (ds : list diagnostic) (d : diagnostic) :
  stderr w' = (stderr w ++ ds ++ [d])%list -> reported w w' = Some (kind_of d).
Proof.
  intros E. unfold reported. rewrite (written_after _ _ _ E), rev_app_distr.
  reflexivity.
Qed.

Lemma reported_complained (w : state) (d : diagnostic) :
  reported w (complained d w) = Some (kind_of d).
Proof. now apply (reported_last w _ []). Qed.

End Reporting.

(** ** The branches of [counter_builtin] *)

Section Dispatch.

Variables (rest : WORD_LIST) (w : state).

Lemma query_runs :
  counter_builtin [] w = (EXECUTION_SUCCESS, shown (counter_value w) w).
Proof. reflexivity. Qed.

Lemma inc_default_runs (op : string) :
  In op increment_words ->
  counter_builtin [op] w
  = (EXECUTION_SUCCESS, shown (Long.add (counter_value w) 1) w).
Proof. intros [<-|[<-|[]]]; reflexivity. Qed.

Lemma dec_default_runs (op : string) :
  In op decrement_words ->
  counter_builtin [op] w
  = (EXECUTION_SUCCESS, shown (Long.sub (counter_value w) 1) w).
Proof. intros [<-|[<-|[]]]; reflexivity. Qed.

Lemma inc_runs (op s : string) (n : Z) :
  In op increment_words ->
  fst (parse_number s w) = Some n ->
  counter_builtin (op :: s :: rest) w
  = (EXECUTION_SUCCESS, shown (Long.add (counter_value w) n) w).
Proof.
  intros Hop Hn. apply parse_number_accepts in Hn.
  destruct Hop as [<-|[<-|[]]];
    unfold counter_builtin; simpl (String.eqb _ _); cbn [orb];
    unfold operand_or_one, bind; rewrite Hn; reflexivity.
Qed.

Lemma dec_runs (op s : string) (n : Z) :
  In op decrement_words ->
  fst (parse_number s w) = Some n ->
  counter_builtin (op :: s :: rest) w
  = (EXECUTION_SUCCESS, shown (Long.sub (counter_value w) n) w).
Proof.
  intros Hop Hn. apply parse_number_accepts in Hn.
  destruct Hop as [<-|[<-|[]]];
    unfold counter_builtin; simpl (String.eqb _ _); cbn [orb];
    unfold operand_or_one, bind; rewrite Hn; reflexivity.
Qed.

Lemma set_runs (s : string) (n : Z) :
  fst (parse_number s w) = Some n ->
  counter_builtin ("set" :: s :: rest) w = (EXECUTION_SUCCESS, shown n w).
Proof.
  intros Hn. apply parse_number_accepts in Hn.
  unfold counter_builtin; simpl (String.eqb _ _); cbn [orb].
  unfold bind; rewrite Hn; reflexivity.
Qed.

(** With an argument that [parse_number] refuses, the commands that take
    a number stop right after the refusal. *)
Lemma numeric_command_refused (op s : string) :
  In op numeric_commands ->
  fst (parse_number s w) = None ->
  counter_builtin (op :: s :: rest) w
  = (EXECUTION_FAILURE, snd (parse_number s w)).
Proof.
  intros Hop Hn.
  destruct (parse_number s w) as [r w'] eqn:E. simpl in Hn. subst r.
  simpl in Hop.
  repeat (destruct Hop as [<-|Hop];
          [unfold counter_builtin; simpl (String.eqb _ _); cbn [orb];
           unfold operand_or_one, bind; rewrite E; reflexivity|]).
  destruct Hop.
Qed.

Lemma not_keyword (s : string) :
  ~ In s dispatch_keywords ->
  forall k, In k dispatch_keywords -> String.eqb s k = false.
Proof.
  intros Hs k Hk. apply String.eqb_neq. congruence.
Qed.

(** A first word that is none of the keywords goes to the last branch. *)
Lemma fallback_runs (s : string) :
  ~ In s dispatch_keywords ->
  counter_builtin (s :: rest) w
  = match parse_number s w with
    | (None, w') =>
        (EXECUTION_FAILURE, complained (invalid_operation s) w')
    | (Some value, w') => (EXECUTION_SUCCESS, shown value w')
    end.
Proof.
  intros Hs. pose proof (not_keyword s Hs) as K.
  unfold counter_builtin.
  rewrite !K by (unfold dispatch_keywords, table_keywords; simpl; tauto).
  cbn [orb]. unfold bind.
  destruct (parse_number s w) as [[value|] w']; reflexivity.
Qed.

End Dispatch.

(** ** The counter stays a [long] *)

Section Invariant.

Lemma counter_builtin_load_in_range (w : state) :
  in_range (counter_value (snd (counter_builtin_load w))).
Proof. unfold in_range, LONG_MIN, LONG_MAX. simpl. lia. Qed.

Lemma counter_builtin_in_range (list : WORD_LIST) (w : state) :
  in_range (counter_value w) ->
  in_range (counter_value (snd (counter_builtin list w))).
Proof.
  intros Hw. destruct list as [|op next]; [exact Hw|].
  destruct (in_dec string_dec op dispatch_keywords) as [Hk|Hk].
  - unfold dispatch_keywords, table_keywords in Hk. simpl in Hk.
    destruct Hk as [<-|[<-|[<-|[<-|[<-|[<-|[<-|[<-|[]]]]]]]]].
    all: try exact Hw.
    all: try (unfold in_range, LONG_MIN, LONG_MAX; simpl; lia).
    all: destruct next as [|s rest].
    all: try (cbn [snd counter_builtin]; apply wrap_long_in_range).
    all: try exact Hw.
    all: destruct (fst (parse_number s w)) as [n|] eqn:E.
    all: try (rewrite (inc_runs rest w _ s n) by side;
              apply wrap_long_in_range).
    all: try (rewrite (dec_runs rest w _ s n) by side;
              apply wrap_long_in_range).
    all: try (rewrite (set_runs rest w s n) by side;
              exact (parse_number_accepted_in_range s w n E)).
    all: rewrite numeric_command_refused by side.
    all: cbn [snd]; now rewrite (proj1 (parse_number_frame s w)).
  - rewrite fallback_runs by side.
    destruct (parse_number_outcome op w) as [v Hv| |]; simpl; assumption.
Qed.

End Invariant.

(** ** Properties of the command surface *)

Section NumericArguments.

(** C1, refuted as stated: the argument [" 5"] contains a character that is
    neither a digit nor a leading sign (the space in front), yet [set " 5"]
    succeeds and stores 5, because [strtol] skips leading white space; it
    is not refused as an invalid argument. *)
Lemma leading_space_argument_is_accepted :
  sign_then_digits " 5" = false /\
  counter_builtin ["set"; " 5"] (fresh 0)
  = (EXECUTION_SUCCESS, shown 5 (fresh 0)) /\
  ~ rejects InvalidArgument ["set"; " 5"] (fresh 0).
Proof.
  split; [reflexivity|]. split; [reflexivity|].
  intros [Hstatus _]. vm_compute in Hstatus. discriminate Hstatus.
Qed.

(** What is not a numeral is not read to its end by [strtol]. *)
Lemma strtol_leftover_unless_numeral (s : string) :
  s <> "" -> numeral s = false ->
  exists c rest, endptr (strtol s) = String c rest.
Proof.
  intros Hs Hn.
  assert (Whole : forall negative,
    read_sign (skip_space s) = (negative, "") ->
    exists c rest, endptr (strtol s) = String c rest).
  { intros negative E. unfold strtol. rewrite E. cbn [convert endptr].
    destruct s as [|c rest]; [congruence|eauto]. }
  destruct (sign_then_digits (skip_space s)) eqn:Eshape;
    [|now apply strtol_leftover].
  unfold numeral in Hn.
  destruct (skip_space s) as [|c rest] eqn:Et; [now apply (Whole false)|].
  cbn [sign_then_digits] in Eshape.
  destruct (is_sign c) eqn:Esign; [|congruence].
  rewrite Eshape in Hn. cbn [andb] in Hn.
  apply negb_false_iff, String.eqb_eq in Hn. subst rest.
  unfold is_sign in Esign. cbn [read_sign] in Whole.
  destruct (Ascii.eqb c "-"); [now apply (Whole true)|].
  destruct (Ascii.eqb c "+"); [now apply (Whole false)|discriminate Esign].
Qed.

Lemma sign_then_digits_nonempty (s : string) :
  sign_then_digits s = false -> s <> "".
Proof. intros H ->. discriminate H. Qed.

(** C1, amended: for every string [s] containing any character other
    than digits and one optional leading sign, unless [s] is leading
    white space followed by an optional sign and one or more digits,
    [inc s], [increment s], [dec s], [decrement s] and [set s] fail with
    the invalid-argument diagnostic for [s] as their only effect; in
    particular the counter keeps its value. *)
Theorem malformed_argument_is_rejected
    (op s : string) (rest : WORD_LIST) (w : state) :
  In op numeric_commands ->
  sign_then_digits s = false ->
  numeral s = false ->
  counter_builtin (op :: s :: rest) w
  = (EXECUTION_FAILURE, complained (numeric_argument_required s) w) /\
  rejects InvalidArgument (op :: s :: rest) w.
Proof.
  intros Hop Hs Hn.
  assert (Hp : parse_number s w
               = (None, complained (numeric_argument_required s) w)).
  { destruct (strtol_leftover_unless_numeral s
                (sign_then_digits_nonempty s Hs) Hn) as (c & r & E).
    unfold parse_number. destruct s as [|c0 s0]; [discriminate Hs|].
    now rewrite E. }
  assert (E : counter_builtin (op :: s :: rest) w
              = (EXECUTION_FAILURE,
                 complained (numeric_argument_required s) w)).
  { rewrite numeric_command_refused by (try assumption; now rewrite Hp).
    now rewrite Hp. }
  split; [exact E|]. unfold rejects. rewrite E. cbn [fst snd].
  split; [reflexivity|]. split; [apply reported_complained|reflexivity].
Qed.

(** A space and a lone minus sign: refused, although nothing but white
    space and a sign is in it. *)
Lemma malformed_argument_is_rejected_witness :
  In "set" numeric_commands /\
  sign_then_digits " -" = false /\
  numeral " -" = false /\
  (counter_builtin ["set"; " -"] (fresh 3)
   = (EXECUTION_FAILURE,
      complained (numeric_argument_required " -") (fresh 3)) /\
   rejects InvalidArgument ["set"; " -"] (fresh 3)).
Proof.
  split; [in_words|]. split; [reflexivity|]. split; [reflexivity|].
  apply (malformed_argument_is_rejected "set" " -" [] (fresh 3)).
  - in_words.
  - reflexivity.
  - reflexivity.
Defined.

(** The scenario [inc abc], a white-space-only argument and a trailing
    space are refused alike. *)
Example malformed_argument_examples :
  rejects InvalidArgument ["inc"; "abc"] (fresh 3) /\
  rejects InvalidArgument ["dec"; " "] (fresh 3) /\
  rejects InvalidArgument ["set"; "5 "] (fresh 3).
Proof. repeat split. Qed.

(** C10: a sign (or none) followed by digits whose value lies outside the
    range of [long] is accepted: [strtol] flags the range error, which
    [parse_number] does not look at, and hands back [LONG_MAX] for a value
    too large and [LONG_MIN] for one too small; [set], [inc], [dec] and the
    bare literal then succeed with that saturated value. *)
Theorem out_of_range_argument_saturates
    (sign ds : string) (w : state) :
  In sign [""; "+"; "-"] ->
  all_digits ds = true -> ds <> "" ->
  ~ in_range (signed_value sign ds) ->
  let s := sign ++ ds in
  let n := if 0 <? signed_value sign ds then LONG_MAX else LONG_MIN in
  erange (strtol s) = true /\
  parse_number s w = (Some n, w) /\
  counter_builtin ["set"; s] w = (EXECUTION_SUCCESS, shown n w) /\
  counter_builtin [s] w = (EXECUTION_SUCCESS, shown n w) /\
  (forall op, In op increment_words ->
     counter_builtin [op; s] w
     = (EXECUTION_SUCCESS, shown (Long.add (counter_value w) n) w)) /\
  (forall op, In op decrement_words ->
     counter_builtin [op; s] w
     = (EXECUTION_SUCCESS, shown (Long.sub (counter_value w) n) w)).
Proof.
  intros Hs Hd Hne Hout s n.
  assert (Hn : clamp (signed_value sign ds) = n).
  { subst n. unfold in_range in Hout.
    destruct (Z.ltb_spec 0 (signed_value sign ds)).
    - apply clamp_above. unfold LONG_MIN, LONG_MAX in *. lia.
    - apply clamp_below. unfold LONG_MIN, LONG_MAX in *. lia. }
  pose proof (parse_number_sign_digits sign ds w Hs Hd Hne) as Hp.
  fold s in Hp. rewrite Hn in Hp.
  assert (Hf : fst (parse_number s w) = Some n) by now rewrite Hp.
  split.
  { subst s. rewrite (strtol_sign_digits sign ds Hs Hd Hne). cbn [erange].
    unfold in_range in Hout. apply orb_true_iff.
    destruct (Z.ltb_spec LONG_MAX (signed_value sign ds)); [now left|].
    right. apply Z.ltb_lt. lia. }
  split; [exact Hp|].
  split; [now apply set_runs|].
  split.
  { rewrite fallback_runs.
    - now rewrite Hp.
    - intros Hk. apply (keyword_not_number s w) in Hk. congruence. }
  split; intros op Hop; [now apply inc_runs | now apply dec_runs].
Qed.

(** Twenty nines behind a minus sign. *)
Lemma out_of_range_argument_saturates_witness :
  In "-" [""; "+"; "-"] /\
  all_digits "99999999999999999999" = true /\
  "99999999999999999999" <> "" /\
  ~ in_range (signed_value "-" "99999999999999999999") /\
  (erange (strtol "-99999999999999999999") = true /\
   parse_number "-99999999999999999999" (fresh 1)
   = (Some LONG_MIN, fresh 1) /\
   counter_builtin ["set"; "-99999999999999999999"] (fresh 1)
   = (EXECUTION_SUCCESS, shown LONG_MIN (fresh 1)) /\
   counter_builtin ["-99999999999999999999"] (fresh 1)
   = (EXECUTION_SUCCESS, shown LONG_MIN (fresh 1)) /\
   (forall op, In op increment_words ->
      counter_builtin [op; "-99999999999999999999"] (fresh 1)
      = (EXECUTION_SUCCESS, shown (Long.add 1 LONG_MIN) (fresh 1))) /\
   (forall op, In op decrement_words ->
      counter_builtin [op; "-99999999999999999999"] (fresh 1)
      = (EXECUTION_SUCCESS, shown (Long.sub 1 LONG_MIN) (fresh 1)))).
Proof.
  assert (Hout : ~ in_range (signed_value "-" "99999999999999999999")).
  { unfold in_range. vm_compute. intros [H _]. apply H. reflexivity. }
  split; [simpl; auto|]. split; [reflexivity|]. split; [discriminate|].
  split; [exact Hout|].
  apply (out_of_range_argument_saturates "-" "99999999999999999999"
           (fresh 1)).
  - simpl; auto.
  - reflexivity.
  - discriminate.
  - exact Hout.
Defined.

End NumericArguments.

Section Dispatching.

(** C2, refuted as stated: ["setinput"] is none of the seven command words
    of the table and is not a number, yet as sole word it succeeds (it
    switches the shell's input and prints a notice) instead of failing as
    an unknown operation. *)
Lemma setinput_is_not_unknown :
  ~ In "setinput" table_keywords /\
  fst (parse_number "setinput" (fresh 0)) = None /\
  counter_builtin ["setinput"] (fresh 0)
  = (EXECUTION_SUCCESS,
     mk_state 0 ("Input set to jobu" ++ newline) []
              (jobu_reader "jobu stdin")) /\
  ~ rejects UnknownOperation ["setinput"] (fresh 0).
Proof.
  split.
  { unfold table_keywords. simpl. intros H.
    repeat (destruct H as [H|H]; [discriminate H|]). exact H. }
  split; [reflexivity|]. split; [reflexivity|].
  intros [Hstatus _]. vm_compute in Hstatus. discriminate Hstatus.
Qed.

(** C2, amended: for every string [s] that is none of the words the
    dispatcher compares with (setinput, inc, increment, dec, decrement,
    set, reset, get) and that [parse_number] does not accept, invoking the
    builtin with [s] as first word fails, the last diagnostic written is
    the invalid-operation one for [s] (after the one [parse_number] itself
    may have written), and the counter keeps its value. *)
Theorem unknown_word_is_rejected
    (s : string) (rest : WORD_LIST) (w : state) :
  ~ In s dispatch_keywords ->
  fst (parse_number s w) = None ->
  counter_builtin (s :: rest) w
  = (EXECUTION_FAILURE,
     complained (invalid_operation s) (snd (parse_number s w))) /\
  rejects UnknownOperation (s :: rest) w.
Proof.
  intros Hk Hp.
  assert (E : counter_builtin (s :: rest) w
              = (EXECUTION_FAILURE,
                 complained (invalid_operation s) (snd (parse_number s w)))).
  { rewrite fallback_runs by exact Hk.
    destruct (parse_number s w) as [[v|] w']; [discriminate Hp|reflexivity]. }
  split; [exact E|]. unfold rejects. rewrite E. cbn [fst snd].
  split; [reflexivity|].
  destruct (parse_number_outcome s w) as [v Hv| |]; cbn [snd].
  - discriminate Hp.
  - split; [apply reported_complained|reflexivity].
  - split; [|reflexivity].
    apply (reported_last w _ [numeric_argument_required s]
                         (invalid_operation s)).
    cbn [complained stderr]. now rewrite <- app_assoc.
Qed.

Lemma unknown_word_is_rejected_witness :
  ~ In "frobnicate" dispatch_keywords /\
  fst (parse_number "frobnicate" (fresh 9)) = None /\
  (counter_builtin ["frobnicate"] (fresh 9)
   = (EXECUTION_FAILURE,
      complained (invalid_operation "frobnicate")
                 (snd (parse_number "frobnicate" (fresh 9)))) /\
   rejects UnknownOperation ["frobnicate"] (fresh 9)).
Proof.
  assert (Hk : ~ In "frobnicate" dispatch_keywords).
  { unfold dispatch_keywords, table_keywords. simpl. intros H.
    repeat (destruct H as [H|H]; [discriminate H|]). exact H. }
  split; [exact Hk|]. split; [reflexivity|].
  apply (unknown_word_is_rejected "frobnicate" [] (fresh 9)).
  - exact Hk.
  - reflexivity.
Defined.

(** C5: [set] with no argument fails with the missing-argument diagnostic
    as its only effect; the counter keeps its prior value. *)
Theorem set_without_argument_is_rejected (w : state) :
  counter_builtin ["set"] w
  = (EXECUTION_FAILURE, complained set_numeric_argument_required w) /\
  rejects MissingArgument ["set"] w.
Proof.
  assert (E : counter_builtin ["set"] w
              = (EXECUTION_FAILURE,
                 complained set_numeric_argument_required w))
    by reflexivity.
  split; [exact E|]. unfold rejects. rewrite E. cbn [fst snd].
  split; [reflexivity|]. split; [apply reported_complained|reflexivity].
Qed.

(** C3: whenever an invocation returns the failure status, whatever the
    words it was given, the counter has the value it had before. *)
Theorem failure_leaves_counter_unchanged (list : WORD_LIST) (w : state) :
  fst (counter_builtin list w) = EXECUTION_FAILURE ->
  counter_value (snd (counter_builtin list w)) = counter_value w.
Proof.
  destruct list as [|op next]; [discriminate|].
  destruct (in_dec string_dec op dispatch_keywords) as [Hk|Hk].
  - unfold dispatch_keywords, table_keywords in Hk. simpl in Hk.
    destruct Hk as [<-|[<-|[<-|[<-|[<-|[<-|[<-|[<-|[]]]]]]]]].
    all: try discriminate.
    all: destruct next as [|s rest]; try discriminate; try reflexivity.
    all: destruct (fst (parse_number s w)) as [n|] eqn:E.
    all: try (rewrite (inc_runs rest w _ s n) by side; discriminate).
    all: try (rewrite (dec_runs rest w _ s n) by side; discriminate).
    all: try (rewrite (set_runs rest w s n) by side; discriminate).
    all: rewrite numeric_command_refused by side.
    all: intros _; cbn [snd]; apply parse_number_frame.
  - rewrite fallback_runs by exact Hk.
    destruct (parse_number_outcome op w) as [v Hv| |];
      [discriminate|reflexivity|reflexivity].
Qed.

Lemma failure_leaves_counter_unchanged_witness :
  fst (counter_builtin ["dec"; "1.5"] (fresh 4)) = EXECUTION_FAILURE /\
  counter_value (snd (counter_builtin ["dec"; "1.5"] (fresh 4)))
  = counter_value (fresh 4).
Proof.
  split; [reflexivity|].
  apply (failure_leaves_counter_unchanged ["dec"; "1.5"] (fresh 4)).
  reflexivity.
Defined.

End Dispatching.

Section Equivalences.

(** C4: from the value 0, the commands [inc 5], [dec 2], [set 100],
    [reset] and the bare query succeed one after the other, leave the
    counter at 5, 3, 100, 0 and 0, and each appends its resulting value,
    on a line of its own, to the standard output. *)
Theorem scenario_inc_dec_set_reset_query
    (out : string) (err : list diagnostic) (src : input_source) :
  let line (text : string) := (text ++ newline)%string in
  map observe
      (session [["inc"; "5"]; ["dec"; "2"]; ["set"; "100"]; ["reset"]; []]
               (mk_state 0 out err src))
  = [ (EXECUTION_SUCCESS, 5, out ++ line "5");
      (EXECUTION_SUCCESS, 3, (out ++ line "5") ++ line "3");
      (EXECUTION_SUCCESS, 100,
       ((out ++ line "5") ++ line "3") ++ line "100");
      (EXECUTION_SUCCESS, 0,
       (((out ++ line "5") ++ line "3") ++ line "100") ++ line "0");
      (EXECUTION_SUCCESS, 0,
       ((((out ++ line "5") ++ line "3") ++ line "100") ++ line "0")
       ++ line "0") ]%string.
Proof. reflexivity. Qed.

(** C6: for every counter value and every argument that [parse_number]
    accepts, an increment by that argument followed by a decrement by the
    same argument both succeed and bring the counter back to the value it
    started from. *)
Theorem increment_then_decrement_restores
    (inc_op dec_op s : string) (n : Z) (w : state) :
  In inc_op increment_words ->
  In dec_op decrement_words ->
  in_range (counter_value w) ->
  fst (parse_number s w) = Some n ->
  let r1 := counter_builtin [inc_op; s] w in
  let r2 := counter_builtin [dec_op; s] (snd r1) in
  fst r1 = EXECUTION_SUCCESS /\
  counter_value (snd r1) = Long.add (counter_value w) n /\
  fst r2 = EXECUTION_SUCCESS /\
  counter_value (snd r2) = counter_value w.
Proof.
  intros Hi Hd Hw Hn r1 r2. subst r2 r1.
  rewrite (inc_runs [] w inc_op s n Hi Hn). cbn [fst snd].
  rewrite (dec_runs [] _ dec_op s n Hd)
    by (now rewrite (parse_number_stateless s _ w)).
  cbn [fst snd shown counter_value].
  repeat split. now apply add_then_sub.
Qed.

(** From the largest [long], where the increment wraps around. *)
Lemma increment_then_decrement_restores_witness :
  In "inc" increment_words /\
  In "decrement" decrement_words /\
  in_range (counter_value (fresh LONG_MAX)) /\
  fst (parse_number "17" (fresh LONG_MAX)) = Some 17 /\
  (let r1 := counter_builtin ["inc"; "17"] (fresh LONG_MAX) in
   let r2 := counter_builtin ["decrement"; "17"] (snd r1) in
   fst r1 = EXECUTION_SUCCESS /\
   counter_value (snd r1) = Long.add (counter_value (fresh LONG_MAX)) 17 /\
   fst r2 = EXECUTION_SUCCESS /\
   counter_value (snd r2) = counter_value (fresh LONG_MAX)).
Proof.
  assert (Hw : in_range (counter_value (fresh LONG_MAX))).
  { unfold in_range, LONG_MIN, LONG_MAX. simpl. lia. }
  split; [simpl; auto|]. split; [simpl; auto|]. split; [exact Hw|].
  split; [reflexivity|].
  apply (increment_then_decrement_restores
           "inc" "decrement" "17" 17 (fresh LONG_MAX)).
  - simpl; auto.
  - simpl; auto.
  - exact Hw.
  - reflexivity.
Defined.

(** C7: for every word that [parse_number] accepts and every state,
    giving the word alone and giving it as the argument of [set] end with
    the same status in the same state (same counter, same output): the
    counter holds the parsed value, which has been printed. *)
Theorem bare_literal_is_set (t : string) (n : Z) (w : state) :
  fst (parse_number t w) = Some n ->
  counter_builtin [t] w = counter_builtin ["set"; t] w /\
  counter_builtin [t] w = (EXECUTION_SUCCESS, shown n w).
Proof.
  intros Hn.
  assert (Hk : ~ In t dispatch_keywords).
  { intros Hk. apply (keyword_not_number t w) in Hk. congruence. }
  rewrite (set_runs [] w t n Hn), (fallback_runs [] w t Hk).
  now rewrite (parse_number_accepts t w n Hn).
Qed.

Lemma bare_literal_is_set_witness :
  fst (parse_number "5" (fresh 8)) = Some 5 /\
  (counter_builtin ["5"] (fresh 8) = counter_builtin ["set"; "5"] (fresh 8) /\
   counter_builtin ["5"] (fresh 8) = (EXECUTION_SUCCESS, shown 5 (fresh 8))).
Proof.
  split; [reflexivity|].
  apply (bare_literal_is_set "5" 5 (fresh 8)). reflexivity.
Defined.

(** C8: in every state, [inc] and [increment] without an argument end
    exactly as with the argument 1, and so do [dec] and [decrement]. *)
Theorem default_argument_is_one (w : state) :
  counter_builtin ["inc"] w = counter_builtin ["inc"; "1"] w /\
  counter_builtin ["increment"] w = counter_builtin ["increment"; "1"] w /\
  counter_builtin ["dec"] w = counter_builtin ["dec"; "1"] w /\
  counter_builtin ["decrement"] w = counter_builtin ["decrement"; "1"] w.
Proof. repeat split; reflexivity. Qed.

(** What [%ld] prints starts with a digit or a minus sign. *)
Lemma format_ld_head (v : Z) :
  exists c rest, format_ld v = String c rest /\ (isdigit c || is_sign c) = true.
Proof.
  unfold format_ld. destruct (Z.to_int v) as [u|u].
  - destruct u; simpl; eauto.
  - simpl. eauto.
Qed.

(** C9: with ["setinput"] as first word the builtin succeeds, leaves the
    counter as it was, and what it prints is the fixed notice, which is
    not the rendering of any counter value; besides, the shell's input is
    switched to the scripted reader. *)
Theorem setinput_keeps_counter (rest : WORD_LIST) (w : state) :
  counter_builtin ("setinput" :: rest) w
  = (EXECUTION_SUCCESS,
     mk_state (counter_value w)
              (stdout w ++ "Input set to jobu" ++ newline)
              (stderr w) (jobu_reader "jobu stdin")) /\
  counter_value (snd (counter_builtin ("setinput" :: rest) w))
  = counter_value w /\
  forall v : Z,
    ("Input set to jobu" ++ newline)%string
    <> (format_ld v ++ newline)%string.
Proof.
  split; [reflexivity|]. split; [reflexivity|].
  intros v E. destruct (format_ld_head v) as (c & r & Ev & Hc).
  rewrite Ev in E. injection E as Ec _. subst c. discriminate Hc.
Qed.

End Equivalences.

(** ** More on [parse_number]: the strings it accepts *)

Section Numerals.

Lemma skip_space_split (s : string) :
  exists ws, s = (ws ++ skip_space s)%string /\ all_space ws = true.
Proof.
  induction s as [|c rest (ws & E & Hws)]; [now exists ""|].
  cbn [skip_space]. destruct (isspace c) eqn:Ec.
  - exists (String c ws). cbn [append all_space]. rewrite Ec, Hws.
    split; [now f_equal|reflexivity].
  - now exists "".
Qed.

Lemma read_sign_numeral (sign ds : string) :
  In sign [""; "+"; "-"] ->
  all_digits ds = true -> ds <> "" ->
  skip_space (sign ++ ds) = (sign ++ ds)%string /\
  read_sign (sign ++ ds) = (String.eqb sign "-", ds).
Proof.
  intros Hs Hd Hne. destruct Hs as [<-|[<-|[<-|[]]]]; [|now split..].
  destruct ds as [|c rest]; [congruence|].
  cbn [all_digits] in Hd. apply andb_true_iff in Hd as [Hc _].
  destruct (digit_is_plain c Hc) as (Hsp & Hminus & Hplus).
  cbn [append skip_space read_sign]. now rewrite Hsp, Hminus, Hplus.
Qed.

Lemma skip_space_numeral (ws sign ds : string) :
  all_space ws = true ->
  In sign [""; "+"; "-"] ->
  all_digits ds = true -> ds <> "" ->
  skip_space (ws ++ sign ++ ds) = (sign ++ ds)%string.
Proof.
  intros Hws Hs Hd Hne. induction ws as [|c rest IH].
  - exact (proj1 (read_sign_numeral sign ds Hs Hd Hne)).
  - cbn [all_space] in Hws. apply andb_true_iff in Hws as [Hc Hrest].
    cbn [append skip_space]. rewrite Hc. now apply IH.
Qed.

(** White space, a sign (or none) and at least one digit: everything is
    read, and the value is the denoted number, saturated. *)
Lemma strtol_numeral (ws sign ds : string) :
  all_space ws = true ->
  In sign [""; "+"; "-"] ->
  all_digits ds = true -> ds <> "" ->
  strtol (ws ++ sign ++ ds)
  = mk_strtol (clamp (signed_value sign ds)) ""
              ((LONG_MAX <? signed_value sign ds)
               || (signed_value sign ds <? LONG_MIN)).
Proof.
  intros Hws Hs Hd Hne. unfold strtol.
  rewrite (skip_space_numeral ws sign ds Hws Hs Hd Hne).
  rewrite (proj2 (read_sign_numeral sign ds Hs Hd Hne)).
  rewrite (convert_digits _ _ ds Hd Hne). reflexivity.
Qed.

Lemma numeral_nonempty (ws sign ds : string) :
  ds <> "" -> (ws ++ sign ++ ds)%string <> "".
Proof.
  intros Hne E. destruct ws; [|discriminate E].
  destruct sign; [|discriminate E]. now apply Hne.
Qed.

(** Without a digit behind the optional sign nothing is converted and
    [endptr] is the whole string. *)
Lemma strtol_no_digits (s : string) (negative : bool) :
  read_sign (skip_space s) = (negative, "") -> endptr (strtol s) = s.
Proof. intros E. unfold strtol. now rewrite E. Qed.

(** X1: [parse_number] accepts exactly the strings made of white space
    (possibly none), then one optional sign, then one or more decimal
    digits and nothing else; the number it stores is the one the sign and
    digits denote, saturated to the range of [long]. *)
Theorem parse_number_accepts_exactly_numerals
    (s : string) (n : Z) (w : state) :
  fst (parse_number s w) = Some n <->
  exists ws sign ds,
    s = (ws ++ sign ++ ds)%string /\
    all_space ws = true /\
    In sign [""; "+"; "-"] /\
    all_digits ds = true /\ ds <> "" /\
    n = clamp (signed_value sign ds).
Proof.
  assert (Forward : forall ws sign ds,
    all_space ws = true -> In sign [""; "+"; "-"] ->
    all_digits ds = true -> ds <> "" ->
    fst (parse_number (ws ++ sign ++ ds) w)
    = Some (clamp (signed_value sign ds))).
  { intros ws sign ds Hws Hs Hd Hne. unfold parse_number.
    rewrite (strtol_numeral ws sign ds Hws Hs Hd Hne).
    pose proof (numeral_nonempty ws sign ds Hne) as Hn.
    destruct (ws ++ sign ++ ds)%string; [congruence|reflexivity]. }
  split.
  - intros Hp.
    assert (Hend : endptr (strtol s) = "" /\ s <> "").
    { unfold parse_number in Hp. destruct s as [|c0 s0]; [discriminate Hp|].
      destruct (endptr (strtol (String c0 s0))); [|discriminate Hp].
      split; [reflexivity|discriminate]. }
    destruct Hend as [Hend Hs].
    destruct (skip_space_split s) as (ws & Esplit & Hws).
    assert (Hshape : sign_then_digits (skip_space s) = true).
    { destruct (sign_then_digits (skip_space s)) eqn:E; [reflexivity|].
      destruct (strtol_leftover s E) as (c & r & Ec). congruence. }
    assert (Decomp : exists sign ds,
      skip_space s = (sign ++ ds)%string /\ In sign [""; "+"; "-"] /\
      all_digits ds = true /\
      read_sign (skip_space s) = (String.eqb sign "-", ds)).
    { destruct (skip_space s) as [|c rest] eqn:Et.
      - exists "", "". simpl. auto.
      - cbn [sign_then_digits] in Hshape. unfold is_sign in Hshape.
        cbn [read_sign].
        destruct (Ascii.eqb_spec c "-") as [->|Hm].
        + exists "-", rest. rewrite orb_true_r in Hshape. simpl. auto 6.
        + destruct (Ascii.eqb_spec c "+") as [->|Hpl].
          * exists "+", rest. simpl. auto 6.
          * exists "", (String c rest). simpl. auto 6. }
    destruct Decomp as (sign & ds & Et & Hsign & Hd & Hread).
    assert (Hne : ds <> "").
    { intros ->. rewrite (strtol_no_digits s _ Hread) in Hend. congruence. }
    exists ws, sign, ds. rewrite <- Et.
    split; [exact Esplit|]. split; [exact Hws|]. split; [exact Hsign|].
    split; [exact Hd|]. split; [exact Hne|].
    pose proof (Forward ws sign ds Hws Hsign Hd Hne) as F.
    rewrite <- Et, <- Esplit in F. congruence.
  - intros (ws & sign & ds & -> & Hws & Hs & Hd & Hne & ->).
    now apply Forward.
Qed.

(** [numeral] decides the shape that [parse_number] accepts. *)
Lemma numeral_iff (s : string) :
  numeral s = true <->
  exists ws sign ds,
    s = (ws ++ sign ++ ds)%string /\
    all_space ws = true /\
    In sign [""; "+"; "-"] /\
    all_digits ds = true /\ ds <> "".
Proof.
  split.
  - intros Hn. destruct (skip_space_split s) as (ws & Esplit & Hws).
    unfold numeral in Hn.
    destruct (skip_space s) as [|c rest] eqn:Et; [discriminate Hn|].
    unfold is_sign in Hn.
    destruct (Ascii.eqb_spec c "+") as [->|Hplus];
      [|destruct (Ascii.eqb_spec c "-") as [->|Hminus]]; cbn [orb] in Hn.
    + apply andb_true_iff in Hn as [Hd Hne].
      exists ws, "+", rest. repeat split; try assumption; [in_words|].
      intros ->. discriminate Hne.
    + apply andb_true_iff in Hn as [Hd Hne].
      exists ws, "-", rest. repeat split; try assumption; [in_words|].
      intros ->. discriminate Hne.
    + exists ws, "", (String c rest).
      repeat split; try assumption; [in_words|discriminate].
  - intros (ws & sign & ds & -> & Hws & Hs & Hd & Hne).
    unfold numeral. rewrite (skip_space_numeral ws sign ds Hws Hs Hd Hne).
    destruct Hs as [<-|[<-|[<-|[]]]].
    + destruct ds as [|c rest]; [congruence|].
      pose proof Hd as Hc. cbn [all_digits] in Hc.
      apply andb_true_iff in Hc as [Hc _].
      destruct (digit_is_plain c Hc) as (_ & Hminus & Hplus).
      cbn [append]. unfold is_sign. now rewrite Hminus, Hplus.
    + cbn. rewrite Hd. destruct ds; [congruence|reflexivity].
    + cbn. rewrite Hd. destruct ds; [congruence|reflexivity].
Qed.

End Numerals.

(** ** How an invocation can end *)

Section Outcomes.

Lemma state_eta (w : state) :
  w = mk_state (counter_value w) (stdout w) (stderr w ++ []) (bash_input w).
Proof. destruct w. simpl. now rewrite app_nil_r. Qed.

Lemma state_eta_plain (w : state) :
  w = mk_state (counter_value w) (stdout w) (stderr w) (bash_input w).
Proof. now destruct w. Qed.

Lemma append_empty_r (s : string) : (s ++ "")%string = s.
Proof. induction s; simpl; congruence. Qed.

(** The three ways [counter_builtin] ends: the counter printed, the
    input switched, or a failure that only complains. *)
Lemma counter_builtin_outcome (list : WORD_LIST) (w : state) :
  (exists v, counter_builtin list w = (EXECUTION_SUCCESS, shown v w)) \/
  (exists rest, list = "setinput" :: rest /\
     counter_builtin list w
     = (EXECUTION_SUCCESS,
        mk_state (counter_value w)
                 (stdout w ++ "Input set to jobu" ++ newline)
                 (stderr w) (jobu_reader "jobu stdin"))) \/
  (exists ds, (List.length ds <= 2)%nat /\
     counter_builtin list w
     = (EXECUTION_FAILURE,
        mk_state (counter_value w) (stdout w) (stderr w ++ ds)
                 (bash_input w))).
Proof.
  assert (Refused : forall s,
    exists ds, (List.length ds <= 1)%nat /\
      (fst (parse_number s w) = None ->
       snd (parse_number s w)
       = mk_state (counter_value w) (stdout w) (stderr w ++ ds)
                  (bash_input w))).
  { intros s. destruct (parse_number_outcome s w) as [v Hv| |].
    - exists []. split; [simpl; lia|discriminate].
    - exists []. split; [simpl; lia|]. intros _. apply state_eta.
    - exists [numeric_argument_required s]. split; [simpl; lia|].
      reflexivity. }
  destruct list as [|op next]; [left; eexists; reflexivity|].
  destruct (in_dec string_dec op dispatch_keywords) as [Hk|Hk].
  - unfold dispatch_keywords, table_keywords in Hk. simpl in Hk.
    destruct Hk as [<-|[<-|[<-|[<-|[<-|[<-|[<-|[<-|[]]]]]]]]].
    1: right; left; exists next; split; reflexivity.
    6-7: left; eexists; reflexivity.
    all: destruct next as [|s rest].
    all: try (left; eexists; reflexivity).
    all: try (right; right; exists [set_numeric_argument_required];
              split; [simpl; lia|reflexivity]).
    all: destruct (fst (parse_number s w)) as [n|] eqn:E.
    all: try (left; eexists; apply (inc_runs rest w _ s n); settled).
    all: try (left; eexists; apply (dec_runs rest w _ s n); settled).
    all: try (left; eexists; apply (set_runs rest w s n); settled).
    all: right; right; destruct (Refused s) as (ds & Hlen & Hds).
    all: exists ds; split; [lia|].
    all: rewrite numeric_command_refused by side.
    all: now rewrite Hds.
  - rewrite fallback_runs by exact Hk.
    destruct (parse_number_outcome op w) as [v Hv| |].
    + left. eexists. reflexivity.
    + right; right. exists [invalid_operation op].
      split; [simpl; lia|reflexivity].
    + right; right.
      exists [numeric_argument_required op; invalid_operation op].
      split; [simpl; lia|].
      unfold complained. cbn [counter_value stdout stderr bash_input].
      now rewrite <- app_assoc.
Qed.

(** X2: an empty string as the argument of [inc], [increment], [dec],
    [decrement] or [set] makes the command fail without a word: the
    status is failure and the state, error channel included, is exactly
    what it was. *)
Theorem empty_argument_fails_silently
    (op : string) (rest : WORD_LIST) (w : state) :
  In op numeric_commands ->
  counter_builtin (op :: "" :: rest) w = (EXECUTION_FAILURE, w) /\
  reported w (snd (counter_builtin (op :: "" :: rest) w)) = None.
Proof.
  intros Hop.
  assert (E : counter_builtin (op :: "" :: rest) w = (EXECUTION_FAILURE, w))
    by (now rewrite (numeric_command_refused rest w op "" Hop eq_refl)).
  split; [exact E|]. rewrite E. cbn [snd]. unfold reported.
  now rewrite (written_after w w []) by apply (f_equal stderr (state_eta w)).
Qed.

Lemma empty_argument_fails_silently_witness :
  In "set" numeric_commands /\
  (counter_builtin ["set"; ""] (fresh 6) = (EXECUTION_FAILURE, fresh 6) /\
   reported (fresh 6) (snd (counter_builtin ["set"; ""] (fresh 6))) = None).
Proof.
  split; [in_words|].
  apply (empty_argument_fails_silently "set" [] (fresh 6)). in_words.
Defined.

(** X3: every invocation that succeeds, other than [setinput], appends
    to the standard output exactly the value the counter then has,
    rendered by [%ld] and followed by a newline, and touches neither the
    error channel nor the input source. *)
Theorem success_prints_the_counter (list : WORD_LIST) (w : state) :
  fst (counter_builtin list w) = EXECUTION_SUCCESS ->
  hd "" list <> "setinput" ->
  snd (counter_builtin list w)
  = shown (counter_value (snd (counter_builtin list w))) w.
Proof.
  intros Hok Hhd.
  destruct (counter_builtin_outcome list w)
    as [(v & E)|[(rest & -> & E)|(ds & _ & E)]].
  - now rewrite E.
  - now contradiction Hhd.
  - rewrite E in Hok. discriminate Hok.
Qed.

Lemma success_prints_the_counter_witness :
  fst (counter_builtin ["dec"; "+4"] (fresh 1)) = EXECUTION_SUCCESS /\
  hd "" ["dec"; "+4"] <> "setinput" /\
  snd (counter_builtin ["dec"; "+4"] (fresh 1))
  = shown (counter_value (snd (counter_builtin ["dec"; "+4"] (fresh 1))))
          (fresh 1).
Proof.
  split; [reflexivity|]. split; [discriminate|].
  apply (success_prints_the_counter ["dec"; "+4"] (fresh 1)).
  - reflexivity.
  - discriminate.
Defined.

(** X4: an invocation that fails changes nothing but the error channel,
    to which it appends at most two diagnostics: the counter, the
    standard output and the input source are what they were. *)
Theorem failure_only_complains (list : WORD_LIST) (w : state) :
  fst (counter_builtin list w) = EXECUTION_FAILURE ->
  exists ds, (List.length ds <= 2)%nat /\
    snd (counter_builtin list w)
    = mk_state (counter_value w) (stdout w) (stderr w ++ ds) (bash_input w).
Proof.
  intros Hfail.
  destruct (counter_builtin_outcome list w)
    as [(v & E)|[(rest & _ & E)|(ds & Hlen & E)]].
  - rewrite E in Hfail. discriminate Hfail.
  - rewrite E in Hfail. discriminate Hfail.
  - exists ds. now rewrite E.
Qed.

Lemma failure_only_complains_witness :
  fst (counter_builtin ["12x"] (fresh 2)) = EXECUTION_FAILURE /\
  exists ds, (List.length ds <= 2)%nat /\
    snd (counter_builtin ["12x"] (fresh 2))
    = mk_state (counter_value (fresh 2)) (stdout (fresh 2))
               (stderr (fresh 2) ++ ds) (bash_input (fresh 2)).
Proof.
  split; [reflexivity|].
  apply (failure_only_complains ["12x"] (fresh 2)). reflexivity.
Defined.

End Outcomes.

(** ** What an invocation looks at *)

Section Frame.

(** X5: only the first two words count: whatever follows the second word
    is ignored, whichever the command. *)
Theorem words_after_the_second_are_ignored
    (op a : string) (rest : WORD_LIST) (w : state) :
  counter_builtin (op :: a :: rest) w = counter_builtin [op; a] w.
Proof.
  unfold counter_builtin.
  repeat match goal with
         | |- context [String.eqb op ?k] => destruct (String.eqb op k)
         end; reflexivity.
Qed.

(** X6: a first word other than [inc], [increment], [dec], [decrement]
    and [set] makes every further word irrelevant: [reset 5] resets,
    [get 5] queries, and a literal followed by anything is stored as if
    alone. *)
Theorem operand_free_commands_ignore_arguments
    (op : string) (rest : WORD_LIST) (w : state) :
  ~ In op numeric_commands ->
  counter_builtin (op :: rest) w = counter_builtin [op] w.
Proof.
  intros Hop.
  assert (K : forall k, In k numeric_commands -> String.eqb op k = false).
  { intros k Hk. apply String.eqb_neq. congruence. }
  unfold counter_builtin.
  rewrite (K "inc"), (K "increment"), (K "dec"), (K "decrement"), (K "set")
    by in_words.
  reflexivity.
Qed.

Lemma operand_free_commands_ignore_arguments_witness :
  ~ In "reset" numeric_commands /\
  counter_builtin ["reset"; "5"] (fresh 9) = counter_builtin ["reset"] (fresh 9).
Proof.
  assert (H : ~ In "reset" numeric_commands).
  { unfold numeric_commands, increment_words, decrement_words. simpl.
    intros H. repeat (destruct H as [H|H]; [discriminate H|]). exact H. }
  split; [exact H|].
  apply (operand_free_commands_ignore_arguments "reset" ["5"] (fresh 9)).
  exact H.
Defined.

Lemma parse_number_carried (s : string) (w : state) :
  parse_number s w
  = (fst (parse_number s (fresh (counter_value w))),
     mk_state (counter_value w) (stdout w)
              (stderr w
               ++ stderr (snd (parse_number s (fresh (counter_value w)))))
              (bash_input w)).
Proof.
  unfold parse_number. destruct s as [|c rest].
  - unfold ret. cbn [fst snd fresh stderr]. f_equal. apply state_eta.
  - destruct (endptr (strtol (String c rest))).
    + unfold ret. cbn [fst snd fresh stderr]. f_equal. apply state_eta.
    + reflexivity.
Qed.

Lemma counter_builtin_carried (list : WORD_LIST) (w : state) :
  counter_builtin list w
  = carried_over w (counter_builtin list (fresh (counter_value w))).
Proof.
  assert (Shown : forall v,
    (EXECUTION_SUCCESS, shown v w)
    = carried_over w (EXECUTION_SUCCESS, shown v (fresh (counter_value w)))).
  { intros v. unfold carried_over, shown, fresh.
    cbn [fst snd counter_value stdout stderr bash_input append].
    now rewrite app_nil_r. }
  assert (Stateless : forall s n,
    fst (parse_number s w) = Some n ->
    fst (parse_number s (fresh (counter_value w))) = Some n).
  { intros s n <-. apply parse_number_stateless. }
  assert (Stateless' : forall s,
    fst (parse_number s w) = None ->
    fst (parse_number s (fresh (counter_value w))) = None).
  { intros s <-. apply parse_number_stateless. }
  assert (Refused : forall s,
    (EXECUTION_FAILURE, snd (parse_number s w))
    = carried_over w
        (EXECUTION_FAILURE, snd (parse_number s (fresh (counter_value w))))).
  { intros s. rewrite (parse_number_carried s w). unfold carried_over.
    cbn [fst snd]. f_equal. f_equal.
    - symmetry. apply (parse_number_frame s (fresh (counter_value w))).
    - rewrite (proj1 (proj2 (parse_number_frame s _))).
      cbn [fresh stdout]. now rewrite append_empty_r.
    - now rewrite (proj2 (proj2 (parse_number_frame s _))). }
  assert (Inc : forall op next, In op increment_words ->
    counter_builtin (op :: next) w
    = carried_over w (counter_builtin (op :: next) (fresh (counter_value w)))).
  { intros op next Hop.
    assert (Hnum : In op numeric_commands)
      by (destruct Hop as [<-|[<-|[]]]; in_words).
    destruct next as [|s rest].
    - rewrite !inc_default_runs by exact Hop. apply Shown.
    - destruct (fst (parse_number s w)) as [n|] eqn:E.
      + rewrite (inc_runs rest w op s n Hop E).
        rewrite (inc_runs rest _ op s n Hop (Stateless s n E)). apply Shown.
      + rewrite (numeric_command_refused rest w op s Hnum E).
        rewrite (numeric_command_refused rest _ op s Hnum (Stateless' s E)).
        apply Refused. }
  assert (Dec : forall op next, In op decrement_words ->
    counter_builtin (op :: next) w
    = carried_over w (counter_builtin (op :: next) (fresh (counter_value w)))).
  { intros op next Hop.
    assert (Hnum : In op numeric_commands)
      by (destruct Hop as [<-|[<-|[]]]; in_words).
    destruct next as [|s rest].
    - rewrite !dec_default_runs by exact Hop. apply Shown.
    - destruct (fst (parse_number s w)) as [n|] eqn:E.
      + rewrite (dec_runs rest w op s n Hop E).
        rewrite (dec_runs rest _ op s n Hop (Stateless s n E)). apply Shown.
      + rewrite (numeric_command_refused rest w op s Hnum E).
        rewrite (numeric_command_refused rest _ op s Hnum (Stateless' s E)).
        apply Refused. }
  destruct list as [|op next]; [apply Shown|].
  destruct (in_dec string_dec op dispatch_keywords) as [Hk|Hk].
  - unfold dispatch_keywords, table_keywords in Hk. simpl in Hk.
    destruct Hk as [<-|[<-|[<-|[<-|[<-|[<-|[<-|[<-|[]]]]]]]]].
    + unfold carried_over; cbn; now rewrite app_nil_r.
    + apply Inc. in_words.
    + apply Inc. in_words.
    + apply Dec. in_words.
    + apply Dec. in_words.
    + destruct next as [|s rest].
      * unfold carried_over. cbn. now rewrite append_empty_r.
      * destruct (fst (parse_number s w)) as [n|] eqn:E.
        -- rewrite (set_runs rest w s n E).
           rewrite (set_runs rest _ s n (Stateless s n E)). apply Shown.
        -- rewrite (numeric_command_refused rest w "set" s)
             by first [assumption | in_words].
           rewrite (numeric_command_refused rest _ "set" s)
             by first [exact (Stateless' s E) | in_words].
           apply Refused.
    + apply Shown.
    + apply Shown.
  - rewrite !fallback_runs by exact Hk.
    rewrite (parse_number_carried op w).
    destruct (parse_number_outcome op (fresh (counter_value w)))
      as [v Hv| |]; cbn [fst snd stderr fresh].
    + rewrite app_nil_r. rewrite <- state_eta_plain. apply Shown.
    + unfold carried_over, complained. cbn.
      now rewrite app_nil_r, append_empty_r.
    + unfold carried_over, complained. cbn.
      now rewrite <- app_assoc, append_empty_r.
Qed.

(** X7: the state enters an invocation only through the counter: the
    result in any state is the result in a pristine state holding the
    same counter, with what that run wrote appended to what the two
    channels already held, and the input source kept unless the run
    replaced it; so two states with the same counter give the same
    status and the same new counter. *)
Theorem counter_builtin_depends_on_counter_only
    (list : WORD_LIST) (w : state) :
  counter_builtin list w
  = carried_over w (counter_builtin list (fresh (counter_value w))) /\
  forall w' : state,
    counter_value w' = counter_value w ->
    status_and_value (counter_builtin list w')
    = status_and_value (counter_builtin list w).
Proof.
  split; [apply counter_builtin_carried|].
  intros w' Hc.
  rewrite (counter_builtin_carried list w').
  rewrite (counter_builtin_carried list w).
  unfold status_and_value, carried_over. cbn [fst snd counter_value].
  now rewrite Hc.
Qed.

End Frame.

(** ** Sequences of invocations *)

Section Sequences.

Lemma session_depends_on_counter (cmds : list WORD_LIST) :
  forall w w' : state,
  counter_value w = counter_value w' ->
  map status_and_value (session cmds w)
  = map status_and_value (session cmds w').
Proof.
  induction cmds as [|c cs IH]; intros w w' Hc; [reflexivity|].
  cbn [session map].
  assert (E : status_and_value (counter_builtin c w)
              = status_and_value (counter_builtin c w')).
  { rewrite (counter_builtin_carried c w).
    rewrite (counter_builtin_carried c w').
    unfold status_and_value, carried_over.
    cbn [fst snd counter_value]. now rewrite Hc. }
  f_equal; [exact E|]. apply IH.
  unfold status_and_value in E. congruence.
Qed.

(** X8: loading the builtin wipes the past: [counter_builtin_load]
    announces itself, returns 1 and zeroes the counter, so that, whatever
    the counter held and whatever was written before, the statuses and
    counter values of any sequence of invocations after it are those of
    the same sequence started from a counter of 0. *)
Theorem load_starts_from_zero (cmds : list WORD_LIST) (w : state) :
  counter_builtin_load w
  = (1, mk_state 0
          (stdout w
           ++ "Counter builtin loaded. Initializing counter to 0."
           ++ newline)
          (stderr w) (bash_input w)) /\
  map status_and_value (session cmds (snd (counter_builtin_load w)))
  = map status_and_value (session cmds (fresh 0)).
Proof.
  split; [reflexivity|].
  apply session_depends_on_counter. reflexivity.
Qed.

Lemma wrap_long_add_inner (a b : Z) :
  wrap_long (wrap_long a + b) = wrap_long (a + b).
Proof.
  unfold wrap_long. f_equal.
  replace ((a + 2 ^ 63) mod 2 ^ 64 - 2 ^ 63 + b + 2 ^ 63)
    with ((a + 2 ^ 63) mod 2 ^ 64 + b) by lia.
  rewrite Zplus_mod_idemp_l. f_equal. lia.
Qed.

Lemma step_ok_stateless (w w' : state) (st : step) :
  step_ok w st -> step_ok w' st.
Proof.
  intros [Hop Hn]. split; [exact Hop|].
  now rewrite (parse_number_stateless _ w' w).
Qed.

Lemma step_runs (w : state) (st : step) :
  step_ok w st ->
  counter_builtin (step_words st) w
  = (EXECUTION_SUCCESS,
     shown (wrap_long (counter_value w + step_delta st)) w).
Proof.
  destruct st as [op s n]. unfold step_ok, step_words, step_delta.
  cbn [step_op step_arg step_amount]. intros [Hop Hn].
  unfold increment_words, decrement_words in Hop. simpl in Hop.
  destruct Hop as [<-|[<-|[<-|[<-|[]]]]].
  - now rewrite (inc_runs [] w "inc" s n) by side.
  - now rewrite (inc_runs [] w "increment" s n) by side.
  - rewrite (dec_runs [] w "dec" s n) by side.
    unfold Long.sub. cbn [existsb increment_words]. simpl (String.eqb _ _).
    cbn [orb]. now rewrite Z.add_opp_r.
  - rewrite (dec_runs [] w "decrement" s n) by side.
    unfold Long.sub. cbn [existsb increment_words]. simpl (String.eqb _ _).
    cbn [orb]. now rewrite Z.add_opp_r.
Qed.

Lemma steps_net_effect (steps : list step) : forall w : state,
  in_range (counter_value w) ->
  Forall (step_ok w) steps ->
  counter_value (run (map step_words steps) w)
  = wrap_long (counter_value w + net_delta steps).
Proof.
  induction steps as [|st rest IH]; intros w Hw Hok.
  - cbn. rewrite Z.add_0_r. symmetry. now apply wrap_long_exact.
  - inversion Hok as [|? ? Hst Hrest]; subst.
    cbn [map run fold_left net_delta fold_right].
    rewrite (step_runs w st Hst). cbn [snd].
    pose proof (IH (shown (wrap_long (counter_value w + step_delta st)) w))
      as Hval.
    unfold run in Hval. rewrite Hval.
    + cbn [shown counter_value]. rewrite wrap_long_add_inner. f_equal.
      unfold net_delta. lia.
    + apply wrap_long_in_range.
    + eapply Forall_impl; [|exact Hrest].
      intros a. apply step_ok_stateless.
Qed.

Lemma steps_all_succeed (steps : list step) : forall w : state,
  Forall (step_ok w) steps ->
  Forall (fun r => fst r = EXECUTION_SUCCESS)
         (session (map step_words steps) w).
Proof.
  induction steps as [|st rest IH]; intros w Hok; [constructor|].
  inversion Hok as [|? ? Hst Hrest]; subst.
  cbn [map session]. rewrite (step_runs w st Hst). cbn [snd].
  constructor; [reflexivity|]. apply IH.
  eapply Forall_impl; [|exact Hrest].
  intros a. apply step_ok_stateless.
Qed.

(** X9: a sequence of [inc] / [increment] / [dec] / [decrement]
    invocations with accepted arguments succeeds throughout and leaves
    the counter at its initial value plus the sum of the increments
    minus the sum of the decrements, reduced to 64 bits once at the
    end. *)
Theorem steps_add_up (steps : list step) (w : state) :
  in_range (counter_value w) ->
  Forall (step_ok w) steps ->
  counter_value (run (map step_words steps) w)
  = wrap_long (counter_value w + net_delta steps) /\
  Forall (fun r => fst r = EXECUTION_SUCCESS)
         (session (map step_words steps) w).
Proof.
  intros Hw Hok. split.
  - now apply steps_net_effect.
  - now apply steps_all_succeed.
Qed.

Lemma steps_add_up_witness :
  in_range (counter_value (fresh 10)) /\
  Forall (step_ok (fresh 10))
         [mk_step "inc" "5" 5; mk_step "decrement" "-2" (-2);
          mk_step "dec" "20" 20] /\
  (counter_value
     (run (map step_words
               [mk_step "inc" "5" 5; mk_step "decrement" "-2" (-2);
                mk_step "dec" "20" 20]) (fresh 10))
   = wrap_long
       (counter_value (fresh 10)
        + net_delta [mk_step "inc" "5" 5; mk_step "decrement" "-2" (-2);
                     mk_step "dec" "20" 20]) /\
   Forall (fun r => fst r = EXECUTION_SUCCESS)
          (session (map step_words
                        [mk_step "inc" "5" 5; mk_step "decrement" "-2" (-2);
                         mk_step "dec" "20" 20]) (fresh 10))).
Proof.
  assert (Hw : in_range (counter_value (fresh 10))).
  { unfold in_range, LONG_MIN, LONG_MAX. simpl. lia. }
  assert (Hok : Forall (step_ok (fresh 10))
                  [mk_step "inc" "5" 5; mk_step "decrement" "-2" (-2);
                   mk_step "dec" "20" 20]).
  { repeat (apply Forall_cons; [split; [in_words|reflexivity]|]).
    apply Forall_nil. }
  split; [exact Hw|]. split; [exact Hok|].
  apply (steps_add_up _ (fresh 10) Hw Hok).
Defined.

Lemma net_delta_permutation (steps steps' : list step) :
  Permutation steps steps' -> net_delta steps = net_delta steps'.
Proof.
  induction 1; unfold net_delta in *; simpl; lia.
Qed.

(** X10: the order of the steps does not matter: two sequences of
    accepted [inc] / [dec] invocations that are permutations of one
    another leave the counter at the same value. *)
Theorem steps_commute (steps steps' : list step) (w : state) :
  in_range (counter_value w) ->
  Forall (step_ok w) steps ->
  Permutation steps steps' ->
  counter_value (run (map step_words steps') w)
  = counter_value (run (map step_words steps) w).
Proof.
  intros Hw Hok Hperm.
  assert (Hok' : Forall (step_ok w) steps')
    by (eapply Permutation_Forall; eassumption).
  rewrite (steps_net_effect steps w Hw Hok).
  rewrite (steps_net_effect steps' w Hw Hok').
  now rewrite (net_delta_permutation steps steps' Hperm).
Qed.

Lemma steps_commute_witness :
  in_range (counter_value (fresh LONG_MAX)) /\
  Forall (step_ok (fresh LONG_MAX))
         [mk_step "inc" "1" 1; mk_step "dec" "3" 3] /\
  Permutation [mk_step "inc" "1" 1; mk_step "dec" "3" 3]
              [mk_step "dec" "3" 3; mk_step "inc" "1" 1] /\
  counter_value
    (run (map step_words [mk_step "dec" "3" 3; mk_step "inc" "1" 1])
         (fresh LONG_MAX))
  = counter_value
      (run (map step_words [mk_step "inc" "1" 1; mk_step "dec" "3" 3])
           (fresh LONG_MAX)).
Proof.
  assert (Hw : in_range (counter_value (fresh LONG_MAX))).
  { unfold in_range, LONG_MIN, LONG_MAX. simpl. lia. }
  assert (Hok : Forall (step_ok (fresh LONG_MAX))
                  [mk_step "inc" "1" 1; mk_step "dec" "3" 3]).
  { repeat (apply Forall_cons; [split; [in_words|reflexivity]|]).
    apply Forall_nil. }
  assert (Hp : Permutation [mk_step "inc" "1" 1; mk_step "dec" "3" 3]
                           [mk_step "dec" "3" 3; mk_step "inc" "1" 1])
    by apply perm_swap.
  split; [exact Hw|]. split; [exact Hok|]. split; [exact Hp|].
  apply (steps_commute _ _ (fresh LONG_MAX) Hw Hok Hp).
Defined.

End Sequences.

(** ** Numerals and what is printed *)

Section Rendering.

Lemma clamp_exact (z : Z) : in_range z -> clamp z = z.
Proof.
  unfold in_range, clamp. intros [Hlo Hhi].
  destruct (Z.ltb_spec LONG_MAX z); [lia|].
  destruct (Z.ltb_spec z LONG_MIN); [lia|reflexivity].
Qed.

Lemma digit_value_nonneg (c : ascii) : isdigit c = true -> 0 <= digit_value c.
Proof.
  unfold isdigit, digit_value. intros H.
  apply andb_true_iff in H as [H _]. apply Z.leb_le in H. lia.
Qed.

Lemma decimal_value_nonneg (ds : string) :
  all_digits ds = true -> 0 <= decimal_value ds.
Proof.
  induction ds as [|c rest IH]; intros H; [reflexivity|].
  cbn [all_digits] in H. apply andb_true_iff in H as [Hc Hrest].
  cbn [decimal_value].
  pose proof (digit_value_nonneg c Hc).
  pose proof (IH Hrest).
  assert (0 < 10 ^ Z.of_nat (String.length rest))
    by (apply Z.pow_pos_nonneg; lia).
  nia.
Qed.

(** X11: an increment by a negative numeral is a decrement by its
    digits, and a decrement by a negative numeral an increment, as long
    as the digits denote at most [LONG_MAX]. *)
Theorem negative_argument_swaps_direction (ds : string) (w : state) :
  all_digits ds = true -> ds <> "" ->
  decimal_value ds <= LONG_MAX ->
  counter_builtin ["inc"; "-" ++ ds] w = counter_builtin ["dec"; ds] w /\
  counter_builtin ["dec"; "-" ++ ds] w = counter_builtin ["inc"; ds] w.
Proof.
  intros Hd Hne Hmax.
  pose proof (decimal_value_nonneg ds Hd) as Hpos.
  assert (Hminus : fst (parse_number ("-" ++ ds) w) = Some (- decimal_value ds)).
  { rewrite (parse_number_sign_digits "-" ds w) by (auto; in_words).
    cbn [fst]. f_equal. apply clamp_exact.
    unfold signed_value, in_range, LONG_MIN, LONG_MAX in *.
    cbn [String.eqb Ascii.eqb Bool.eqb]. lia. }
  assert (Hplain : fst (parse_number ds w) = Some (decimal_value ds)).
  { change ds with ("" ++ ds)%string at 1.
    rewrite (parse_number_sign_digits "" ds w) by (auto; in_words).
    cbn [fst]. f_equal. apply clamp_exact.
    unfold signed_value, in_range, LONG_MIN, LONG_MAX in *.
    cbn [String.eqb]. lia. }
  split.
  - rewrite (inc_runs [] w "inc" _ _ ltac:(in_words) Hminus).
    rewrite (dec_runs [] w "dec" _ _ ltac:(in_words) Hplain).
    unfold Long.add, Long.sub. now rewrite Z.add_opp_r.
  - rewrite (dec_runs [] w "dec" _ _ ltac:(in_words) Hminus).
    rewrite (inc_runs [] w "inc" _ _ ltac:(in_words) Hplain).
    unfold Long.add, Long.sub. now rewrite Z.sub_opp_r.
Qed.

Lemma negative_argument_swaps_direction_witness :
  all_digits "0042" = true /\ "0042" <> "" /\
  decimal_value "0042" <= LONG_MAX /\
  (counter_builtin ["inc"; "-0042"] (fresh 1)
   = counter_builtin ["dec"; "0042"] (fresh 1) /\
   counter_builtin ["dec"; "-0042"] (fresh 1)
   = counter_builtin ["inc"; "0042"] (fresh 1)).
Proof.
  split; [reflexivity|]. split; [discriminate|].
  split; [unfold LONG_MAX; vm_compute; discriminate|].
  apply (negative_argument_swaps_direction "0042" (fresh 1)).
  - reflexivity.
  - discriminate.
  - unfold LONG_MAX; vm_compute; discriminate.
Defined.

(** The bound is needed: one past [LONG_MAX] the negative numeral is
    still exact while the positive one saturates. *)
Example negative_argument_at_the_edge :
  counter_value
    (snd (counter_builtin ["inc"; "-9223372036854775808"] (fresh 0)))
  = LONG_MIN /\
  counter_value
    (snd (counter_builtin ["dec"; "9223372036854775808"] (fresh 0)))
  = LONG_MIN + 1.
Proof. split; reflexivity. Qed.

Lemma scan_printed_digits_from (d : Decimal.uint) : forall acc : positive,
  scan_digits (Zpos acc) (NilEmpty.string_of_uint d)
  = (Zpos (Pos.of_uint_acc d acc), "").
Proof.
  induction d; intros acc; [reflexivity|..];
    cbn [NilEmpty.string_of_uint scan_digits Pos.of_uint_acc];
    match goal with
    | |- context [isdigit ?c] => change (isdigit c) with true
    end; cbv iota;
    match goal with
    | |- scan_digits ?z _ = (Zpos (Pos.of_uint_acc _ ?q), _) =>
        replace z with (Zpos q)
          by (unfold digit_value; cbn [nat_of_ascii]; vm_compute Z.of_nat; lia)
    end; apply IHd.
Qed.

Lemma scan_printed_digits (d : Decimal.uint) :
  scan_digits 0 (NilEmpty.string_of_uint d) = (Z.of_N (Pos.of_uint d), "").
Proof.
  induction d; [reflexivity|exact IHd|..];
    cbn [NilEmpty.string_of_uint scan_digits Pos.of_uint];
    match goal with
    | |- context [isdigit ?c] => change (isdigit c) with true
    end; cbv iota;
    match goal with
    | |- scan_digits ?z _ = (Z.of_N (Npos (Pos.of_uint_acc _ ?q)), _) =>
        change z with (Zpos q)
    end; apply scan_printed_digits_from.
Qed.

Lemma printed_digits_are_digits (d : Decimal.uint) :
  all_digits (NilEmpty.string_of_uint d) = true.
Proof. induction d; [reflexivity|..]; exact IHd. Qed.

Lemma printed_digits_value (d : Decimal.uint) :
  decimal_value (NilEmpty.string_of_uint d) = Z.of_N (Pos.of_uint d).
Proof.
  pose proof (scan_digits_all_digits _ 0 (printed_digits_are_digits d)) as E.
  rewrite scan_printed_digits in E. injection E as E. lia.
Qed.

Lemma printed_positive (p : positive) :
  exists ds,
    NilZero.string_of_uint (Pos.to_uint p) = ds /\
    all_digits ds = true /\ ds <> "" /\ decimal_value ds = Zpos p.
Proof.
  pose proof (Unsigned.to_uint_nonnil p) as Hnil.
  exists (NilEmpty.string_of_uint (Pos.to_uint p)).
  split; [destruct (Pos.to_uint p); [congruence|reflexivity..]|].
  split; [apply printed_digits_are_digits|].
  split; [destruct (Pos.to_uint p); [congruence|discriminate..]|].
  now rewrite printed_digits_value, Unsigned.of_to.
Qed.

(** What [%ld] prints is read back by [parse_number] as the same value,
    saturated. *)
Lemma parse_number_format_ld (v : Z) (w : state) :
  parse_number (format_ld v) w = (Some (clamp v), w).
Proof.
  unfold format_ld. destruct v as [|p|p].
  - reflexivity.
  - destruct (printed_positive p) as (ds & E & Hd & Hne & Hv).
    cbn [Z.to_int NilZero.string_of_int]. rewrite E.
    change ds with ("" ++ ds)%string.
    rewrite (parse_number_sign_digits "" ds w) by (auto; in_words).
    unfold signed_value. cbn [String.eqb]. now rewrite Hv.
  - destruct (printed_positive p) as (ds & E & Hd & Hne & Hv).
    cbn [Z.to_int NilZero.string_of_int]. rewrite E.
    change (String "-" ds) with ("-" ++ ds)%string.
    rewrite (parse_number_sign_digits "-" ds w) by (auto; in_words).
    unfold signed_value. cbn [String.eqb Ascii.eqb Bool.eqb]. now rewrite Hv.
Qed.

(** X12: what the builtin prints for a counter value can be given back
    to it: for every [long] value, its [%ld] rendering is accepted by
    [parse_number] as that very value, so [set] with it, or the
    rendering alone, stores the value again. *)
Theorem printed_value_reads_back (v : Z) (w : state) :
  in_range v ->
  fst (parse_number (format_ld v) w) = Some v /\
  counter_builtin ["set"; format_ld v] w = (EXECUTION_SUCCESS, shown v w) /\
  counter_builtin [format_ld v] w = (EXECUTION_SUCCESS, shown v w).
Proof.
  intros Hv.
  assert (Hp : fst (parse_number (format_ld v) w) = Some v)
    by now rewrite parse_number_format_ld, clamp_exact.
  split; [exact Hp|]. split; [now apply set_runs|].
  rewrite fallback_runs.
  - now rewrite (parse_number_accepts _ w v Hp).
  - intros Hk. apply (keyword_not_number _ w) in Hk. congruence.
Qed.

Lemma printed_value_reads_back_witness :
  in_range LONG_MIN /\
  (fst (parse_number (format_ld LONG_MIN) (fresh 3)) = Some LONG_MIN /\
   counter_builtin ["set"; format_ld LONG_MIN] (fresh 3)
   = (EXECUTION_SUCCESS, shown LONG_MIN (fresh 3)) /\
   counter_builtin [format_ld LONG_MIN] (fresh 3)
   = (EXECUTION_SUCCESS, shown LONG_MIN (fresh 3))).
Proof.
  assert (H : in_range LONG_MIN).
  { unfold in_range, LONG_MIN, LONG_MAX. lia. }
  split; [exact H|].
  apply (printed_value_reads_back LONG_MIN (fresh 3) H).
Defined.

End Rendering.

(** ** The scripted reader *)

Section Blocks.

Lemma update_length (l : list ascii) : forall (n : nat) (c : ascii),
  (n < List.length l)%nat ->
  List.length (firstn n l ++ c :: skipn (S n) l) = List.length l.
Proof.
  induction l as [|a l IH]; intros [|n] c H; simpl in *; try lia.
  f_equal. apply IH. lia.
Qed.

Lemma update_same (l : list ascii) : forall (n : nat) (c : ascii),
  (n < List.length l)%nat ->
  nth_error (firstn n l ++ c :: skipn (S n) l) n = Some c.
Proof.
  induction l as [|a l IH]; intros [|n] c H; simpl in *; try lia.
  - reflexivity.
  - apply IH. lia.
Qed.

Lemma update_other (l : list ascii) : forall (n m : nat) (c : ascii),
  (n < List.length l)%nat -> m <> n ->
  nth_error (firstn n l ++ c :: skipn (S n) l) m = nth_error l m.
Proof.
  induction l as [|a l IH]; intros [|n] [|m] c H Hm; simpl in *;
    try lia; try reflexivity.
  apply IH; lia.
Qed.

Lemma update_by_same_value (l : list ascii) : forall (n : nat) (c : ascii),
  nth_error l n = Some c -> (firstn n l ++ c :: skipn (S n) l)%list = l.
Proof.
  induction l as [|a l IH]; intros [|n] c H; simpl in *; try discriminate.
  - congruence.
  - f_equal. now apply IH.
Qed.

Lemma store_inside (line : list ascii) (i : Z) (c : ascii) :
  0 <= i < Z.of_nat (List.length line) ->
  exists line',
    store line i c = Some line' /\
    List.length line' = List.length line /\
    load line' i = Some c /\
    forall k, 0 <= k -> k <> i -> load line' k = load line k.
Proof.
  intros Hi. unfold store.
  replace ((0 <=? i) && (i <? Z.of_nat (List.length line))) with true
    by (symmetry; apply andb_true_iff; split;
        [apply Z.leb_le|apply Z.ltb_lt]; lia).
  eexists. split; [reflexivity|].
  assert (Hn : (Z.to_nat i < List.length line)%nat) by lia.
  split; [now apply update_length|]. split.
  - unfold load. replace (i <? 0) with false by (symmetry; apply Z.ltb_ge; lia).
    now apply update_same.
  - intros k Hk Hne. unfold load.
    replace (k <? 0) with false by (symmetry; apply Z.ltb_ge; lia).
    apply update_other; [exact Hn|lia].
Qed.

Lemma store_same_value (line : list ascii) (i : Z) (c : ascii) :
  load line i = Some c -> store line i c = Some line.
Proof.
  unfold load, store. destruct (Z.ltb_spec i 0) as [|Hi]; [discriminate|].
  intros H.
  assert (Hn : (Z.to_nat i < List.length line)%nat).
  { apply nth_error_Some. congruence. }
  replace ((0 <=? i) && (i <? Z.of_nat (List.length line))) with true
    by (symmetry; apply andb_true_iff; split;
        [apply Z.leb_le|apply Z.ltb_lt]; lia).
  f_equal. now apply update_by_same_value.
Qed.

Lemma load_inside (line : list ascii) (i : Z) :
  0 <= i < Z.of_nat (List.length line) -> exists c, load line i = Some c.
Proof.
  intros Hi. unfold load.
  replace (i <? 0) with false by (symmetry; apply Z.ltb_ge; lia).
  destruct (nth_error line (Z.to_nat i)) eqn:E; [eauto|].
  apply nth_error_None in E. lia.
Qed.

Lemma int_of_uchar_range (c : ascii) : 0 <= int_of_uchar c < 256.
Proof.
  unfold int_of_uchar. pose proof (N_ascii_bounded c). lia.
Qed.

Lemma int_of_uchar_nonzero (c : ascii) :
  Ascii.eqb c NUL = false -> int_of_uchar c <> 0.
Proof.
  intros H E. apply Ascii.eqb_neq in H. apply H.
  rewrite <- (ascii_N_embedding c). unfold int_of_uchar in E.
  replace (N_of_ascii c) with 0%N by lia. reflexivity.
Qed.

Lemma char_of_int_of_uchar (c : ascii) : char_of_int (int_of_uchar c) = c.
Proof.
  unfold char_of_int. rewrite Z.mod_small by apply int_of_uchar_range.
  unfold int_of_uchar. rewrite N2Z.id. apply ascii_N_embedding.
Qed.

Lemma new_line_is_line_block : new_line = Some line_block.
Proof. reflexivity. Qed.

End Blocks.

Section Reader.

(** The paths through [jobu_get]. *)

Lemma jobu_get_unread (fuel : nat) (ok : bool) (p : state)
    (line : list ascii) (i : Z) (c : ascii) :
  load line i = Some c -> Ascii.eqb c NUL = false ->
  jobu_get (S fuel) ok (mk_jobu p (Some line) i)
  = Some (int_of_uchar c, mk_jobu p (Some line) (i + 1)).
Proof.
  intros Hl Hc.
  cbn [jobu_get current_jobu_line current_jobu_line_index process].
  now rewrite Hl, Hc.
Qed.

Lemma jobu_get_at_end (fuel : nat) (ok : bool) (p : state)
    (line : list ascii) (i : Z) :
  load line i = Some NUL ->
  jobu_get (S fuel) ok (mk_jobu p (Some line) i)
  = jobu_get fuel ok (mk_jobu p None i).
Proof.
  intros Hl.
  cbn [jobu_get current_jobu_line current_jobu_line_index process].
  now rewrite Hl.
Qed.

Lemma jobu_get_new_line (fuel : nat) (p : state) (i : Z) :
  jobu_get (S fuel) true (mk_jobu p None i)
  = Some (101, mk_jobu (snd (printf prompt p)) (Some line_block) 1).
Proof.
  cbn [jobu_get current_jobu_line current_jobu_line_index process].
  rewrite new_line_is_line_block. reflexivity.
Qed.

Lemma jobu_get_no_memory (fuel : nat) (p : state) (i : Z) :
  jobu_get (S fuel) false (mk_jobu p None i)
  = Some (EOF, mk_jobu (snd (printf prompt p)) None i).
Proof. reflexivity. Qed.

(** What being well formed gives for a state that holds a block. *)
Lemma well_formed_block (p : state) (line : list ascii) (i : Z) :
  well_formed (mk_jobu p (Some line) i) = true ->
  Z.of_nat (List.length line) = block_size /\
  load line (block_size - 1) = Some NUL /\
  0 <= i < block_size.
Proof.
  unfold well_formed. cbn [current_jobu_line current_jobu_line_index].
  intros H. repeat (apply andb_true_iff in H as [H ?]).
  apply Z.eqb_eq in H.
  destruct (load line (block_size - 1)) as [c|] eqn:E; [|discriminate].
  match goal with Hc : Ascii.eqb c NUL = true |- _ =>
    apply Ascii.eqb_eq in Hc; subst c end.
  repeat split; try assumption; [apply Z.leb_le|apply Z.ltb_lt]; assumption.
Qed.

Lemma well_formed_intro (p : state) (line : list ascii) (i : Z) :
  Z.of_nat (List.length line) = block_size ->
  load line (block_size - 1) = Some NUL ->
  0 <= i < block_size ->
  well_formed (mk_jobu p (Some line) i) = true.
Proof.
  intros Hlen Hlast Hi. unfold well_formed.
  cbn [current_jobu_line current_jobu_line_index]. rewrite Hlast.
  repeat (apply andb_true_iff; split);
    [now apply Z.eqb_eq|reflexivity|apply Z.leb_le; lia|apply Z.ltb_lt; lia].
Qed.

Lemma line_block_well_formed (p : state) :
  well_formed (mk_jobu p (Some line_block) 1) = true.
Proof. reflexivity. Qed.

(** The complete account of one call in a well-formed state: the result
    is the same for every budget of two or more, and is one of three. *)
Lemma jobu_get_cases (ok : bool) (j : jobu_state) :
  well_formed j = true ->
  exists c j',
    (forall fuel, jobu_get (S (S fuel)) ok j = Some (c, j')) /\
    well_formed j' = true /\
    ((has_unread j = true /\
      exists line b,
        current_jobu_line j = Some line /\
        load line (current_jobu_line_index j) = Some b /\
        Ascii.eqb b NUL = false /\
        c = int_of_uchar b /\
        j' = mk_jobu (process j) (Some line)
                     (current_jobu_line_index j + 1)) \/
     (has_unread j = false /\ ok = true /\ c = 101 /\
      j' = mk_jobu (snd (printf prompt (process j))) (Some line_block) 1) \/
     (has_unread j = false /\ ok = false /\ c = EOF /\
      j' = mk_jobu (snd (printf prompt (process j))) None
                   (current_jobu_line_index j))).
Proof.
  destruct j as [p [line|] i]; intros Hwf.
  - destruct (well_formed_block p line i Hwf) as (Hlen & Hlast & Hi).
    destruct (load_inside line i) as (b & Hb); [lia|].
    destruct (Ascii.eqb b NUL) eqn:Enul.
    + apply Ascii.eqb_eq in Enul. subst b.
      assert (Hun : has_unread (mk_jobu p (Some line) i) = false).
      { unfold has_unread.
        cbn [current_jobu_line current_jobu_line_index]. now rewrite Hb. }
      destruct ok.
      * eexists _, _. split; [|split].
        -- intros fuel. rewrite (jobu_get_at_end _ true p line i Hb).
           apply jobu_get_new_line.
        -- apply line_block_well_formed.
        -- right; left. now repeat split.
      * eexists _, _. split; [|split].
        -- intros fuel. rewrite (jobu_get_at_end _ false p line i Hb).
           apply jobu_get_no_memory.
        -- reflexivity.
        -- right; right. now repeat split.
    + eexists _, _. split; [|split].
      * intros fuel. apply (jobu_get_unread _ ok p line i b Hb Enul).
      * apply well_formed_intro; try assumption.
        assert (i <> block_size - 1).
        { intros ->. rewrite Hlast in Hb. injection Hb as <-.
          discriminate Enul. }
        lia.
      * left. split.
        -- unfold has_unread.
           cbn [current_jobu_line current_jobu_line_index].
           now rewrite Hb, Enul.
        -- exists line, b. now repeat split.
  - destruct ok.
    + eexists _, _. split; [|split].
      * intros fuel. apply jobu_get_new_line.
      * apply line_block_well_formed.
      * right; left. now repeat split.
    + eexists _, _. split; [|split].
      * intros fuel. apply jobu_get_no_memory.
      * reflexivity.
      * right; right. now repeat split.
Qed.

(** X13: in a well-formed state [jobu_get] reads inside its block only
    and needs no more than its one nested call: it returns, with the same
    result whatever the budget beyond two, and leaves a well-formed
    state. *)
Theorem jobu_get_is_safe (fuel : nat) (ok : bool) (j : jobu_state) :
  well_formed j = true ->
  exists c j',
    jobu_get 2 ok j = Some (c, j') /\
    jobu_get (S (S fuel)) ok j = Some (c, j') /\
    well_formed j' = true.
Proof.
  intros Hwf.
  destruct (jobu_get_cases ok j Hwf) as (c & j' & E & Hwf' & _).
  exists c, j'. split; [apply (E 0%nat)|]. split; [apply E|exact Hwf'].
Qed.

Lemma jobu_get_is_safe_witness :
  well_formed (unused (fresh 0)) = true /\
  exists c j',
    jobu_get 2 true (unused (fresh 0)) = Some (c, j') /\
    jobu_get 7 true (unused (fresh 0)) = Some (c, j') /\
    well_formed j' = true.
Proof.
  split; [reflexivity|].
  apply (jobu_get_is_safe 5 true (unused (fresh 0))). reflexivity.
Defined.

(** X14: [jobu_unget] writes inside the block only: in a well-formed
    state it returns its argument and leaves a well-formed state. *)
Theorem jobu_unget_is_safe (c : Z) (j : jobu_state) :
  well_formed j = true ->
  exists j', jobu_unget c j = Some (c, j') /\ well_formed j' = true.
Proof.
  destruct j as [p [line|] i]; intros Hwf; [|now exists (mk_jobu p None i)].
  destruct (well_formed_block p line i Hwf) as (Hlen & Hlast & Hi).
  unfold jobu_unget.
  cbn [current_jobu_line current_jobu_line_index process].
  destruct (Z.eqb_spec i 0) as [->|Hnz]; [eauto|].
  destruct (store_inside line (i - 1) (char_of_int c))
    as (line' & Hst & Hlen' & _ & Hother); [lia|].
  rewrite Hst. eexists. split; [reflexivity|].
  apply well_formed_intro.
  - now rewrite Hlen'.
  - rewrite Hother; [exact Hlast| |]; unfold block_size in *; simpl in *; lia.
  - lia.
Qed.

Lemma jobu_unget_is_safe_witness :
  well_formed (mk_jobu (fresh 0) (Some line_block) 4) = true /\
  exists j',
    jobu_unget 120 (mk_jobu (fresh 0) (Some line_block) 4) = Some (120, j')
    /\ well_formed j' = true.
Proof.
  split; [reflexivity|].
  apply (jobu_unget_is_safe 120 (mk_jobu (fresh 0) (Some line_block) 4)).
  reflexivity.
Defined.

(** X15: [jobu_get] hands back the end-of-file mark in one situation
    only: no unread character is left and [malloc] fails.  It has then
    printed the prompt and holds no block.  In every other situation it
    returns a character code between 1 and 255 and holds a block. *)
Theorem jobu_get_end_of_file (ok : bool) (j j' : jobu_state) (c : Z) :
  well_formed j = true ->
  jobu_get 2 ok j = Some (c, j') ->
  (c = EOF <-> has_unread j = false /\ ok = false) /\
  (c = EOF ->
   current_jobu_line j' = None /\
   process j' = snd (printf prompt (process j))) /\
  (c <> EOF -> 1 <= c <= 255 /\ current_jobu_line j' <> None).
Proof.
  intros Hwf Hget.
  destruct (jobu_get_cases ok j Hwf) as (c0 & j0 & E & _ & Hcases).
  rewrite (E 0%nat) in Hget. injection Hget as <- <-.
  destruct Hcases
    as [(Hun & line & b & Hline & Hb & Hnul & -> & ->)
       |[(Hun & -> & -> & ->)|(Hun & -> & -> & ->)]].
  - pose proof (int_of_uchar_range b) as Hr.
    pose proof (int_of_uchar_nonzero b Hnul) as Hz.
    assert (Hne : int_of_uchar b <> EOF) by (unfold EOF; lia).
    split; [|split].
    + split; [intros E'; contradiction|intros [Hf _]; congruence].
    + intros E'. contradiction.
    + intros _. split; [lia|discriminate].
  - assert (Hne : 101 <> EOF) by discriminate.
    split; [|split].
    + split; [intros E'; contradiction|intros [_ Hf]; discriminate Hf].
    + intros E'. contradiction.
    + intros _. split; [lia|discriminate].
  - split; [|split].
    + split; [now split|reflexivity].
    + intros _. now split.
    + intros Hne. now contradiction Hne.
Qed.

Lemma jobu_get_end_of_file_witness :
  well_formed (mk_jobu (fresh 0) (Some line_block) 22) = true /\
  jobu_get 2 false (mk_jobu (fresh 0) (Some line_block) 22)
  = Some (EOF, mk_jobu (snd (printf prompt (fresh 0))) None 22) /\
  ((EOF = EOF <->
    has_unread (mk_jobu (fresh 0) (Some line_block) 22) = false
    /\ false = false) /\
   (EOF = EOF ->
    current_jobu_line (mk_jobu (snd (printf prompt (fresh 0))) None 22)
    = None /\
    process (mk_jobu (snd (printf prompt (fresh 0))) None 22)
    = snd (printf prompt (process (mk_jobu (fresh 0) (Some line_block) 22))))
   /\
   (EOF <> EOF ->
    1 <= EOF <= 255 /\
    current_jobu_line (mk_jobu (snd (printf prompt (fresh 0))) None 22)
    <> None)).
Proof.
  split; [reflexivity|]. split; [reflexivity|].
  apply (jobu_get_end_of_file false
           (mk_jobu (fresh 0) (Some line_block) 22)
           (mk_jobu (snd (printf prompt (fresh 0))) None 22) EOF);
    reflexivity.
Defined.

(** X16: pushing back the character just read and reading again gives
    the same character and the same state as after the first read,
    whether or not memory is available for the second read. *)
Theorem jobu_unget_then_get
    (ok ok' : bool) (j j1 : jobu_state) (c : Z) :
  well_formed j = true ->
  jobu_get 2 ok j = Some (c, j1) ->
  c <> EOF ->
  exists j2,
    jobu_unget c j1 = Some (c, j2) /\
    jobu_get 2 ok' j2 = Some (c, j1).
Proof.
  intros Hwf Hget Hne.
  assert (Shape : exists p line i b,
    j1 = mk_jobu p (Some line) (i + 1) /\ 0 <= i /\
    load line i = Some b /\ Ascii.eqb b NUL = false /\ c = int_of_uchar b).
  { destruct (jobu_get_cases ok j Hwf) as (c0 & j0 & E & _ & Hcases).
    rewrite (E 0%nat) in Hget. injection Hget as <- <-.
    destruct Hcases
      as [(Hun & line & b & Hline & Hb & Hnul & -> & ->)
         |[(Hun & -> & -> & ->)|(Hun & -> & -> & ->)]].
    - destruct j as [p l i].
      cbn [current_jobu_line current_jobu_line_index process] in *.
      subst l.
      destruct (well_formed_block p line i Hwf) as (_ & _ & Hi).
      exists p, line, i, b. repeat split; (assumption || lia).
    - exists (snd (printf prompt (process j))), line_block, 0, "e"%char.
      repeat split; (reflexivity || lia).
    - now contradiction Hne. }
  destruct Shape as (p & line & i & b & -> & Hi & Hb & Hnul & ->).
  exists (mk_jobu p (Some line) i). split.
  - unfold jobu_unget.
    cbn [current_jobu_line current_jobu_line_index process].
    destruct (Z.eqb_spec (i + 1) 0) as [|_]; [lia|].
    replace (i + 1 - 1) with i by lia.
    rewrite char_of_int_of_uchar. now rewrite (store_same_value line i b Hb).
  - apply (jobu_get_unread 1 ok' p line i b Hb Hnul).
Qed.

Lemma jobu_unget_then_get_witness :
  well_formed (mk_jobu (fresh 0) (Some line_block) 5) = true /\
  jobu_get 2 true (mk_jobu (fresh 0) (Some line_block) 5)
  = Some (104, mk_jobu (fresh 0) (Some line_block) 6) /\
  104 <> EOF /\
  exists j2,
    jobu_unget 104 (mk_jobu (fresh 0) (Some line_block) 6) = Some (104, j2)
    /\ jobu_get 2 false j2
       = Some (104, mk_jobu (fresh 0) (Some line_block) 6).
Proof.
  split; [reflexivity|]. split; [reflexivity|]. split; [discriminate|].
  apply (jobu_unget_then_get true false
           (mk_jobu (fresh 0) (Some line_block) 5)
           (mk_jobu (fresh 0) (Some line_block) 6) 104).
  - reflexivity.
  - reflexivity.
  - discriminate.
Defined.

(** X17: pushing back a zero byte (any value whose low eight bits are
    zero) after a read throws the rest of the line away: the next read,
    memory permitting, releases the block, prints the prompt and starts
    the line over with its first character. *)
Theorem jobu_unget_zero_restarts (c : Z) (j : jobu_state) :
  well_formed j = true ->
  current_jobu_line j <> None ->
  current_jobu_line_index j <> 0 ->
  c mod 256 = 0 ->
  exists j1,
    jobu_unget c j = Some (c, j1) /\
    jobu_get 2 true j1
    = Some (101, mk_jobu (snd (printf prompt (process j)))
                         (Some line_block) 1).
Proof.
  destruct j as [p [line|] i]; intros Hwf Hline Hidx Hc;
    [|now contradiction Hline].
  cbn [current_jobu_line current_jobu_line_index process] in *.
  destruct (well_formed_block p line i Hwf) as (Hlen & Hlast & Hi).
  destruct (store_inside line (i - 1) (char_of_int c))
    as (line' & Hst & _ & Hsame & _); [lia|].
  exists (mk_jobu p (Some line') (i - 1)). split.
  - unfold jobu_unget.
    cbn [current_jobu_line current_jobu_line_index process].
    destruct (Z.eqb_spec i 0); [congruence|]. now rewrite Hst.
  - assert (Hnul : char_of_int c = NUL) by (unfold char_of_int; now rewrite Hc).
    rewrite Hnul in Hsame.
    rewrite (jobu_get_at_end 1 true p line' (i - 1) Hsame).
    apply jobu_get_new_line.
Qed.

Lemma jobu_unget_zero_restarts_witness :
  well_formed (mk_jobu (fresh 0) (Some line_block) 9) = true /\
  current_jobu_line (mk_jobu (fresh 0) (Some line_block) 9) <> None /\
  current_jobu_line_index (mk_jobu (fresh 0) (Some line_block) 9) <> 0 /\
  0 mod 256 = 0 /\
  exists j1,
    jobu_unget 0 (mk_jobu (fresh 0) (Some line_block) 9) = Some (0, j1) /\
    jobu_get 2 true j1
    = Some (101,
            mk_jobu (snd (printf prompt
                            (process (mk_jobu (fresh 0)
                                              (Some line_block) 9))))
                    (Some line_block) 1).
Proof.
  split; [reflexivity|]. split; [discriminate|]. split; [discriminate|].
  split; [reflexivity|].
  apply (jobu_unget_zero_restarts 0 (mk_jobu (fresh 0) (Some line_block) 9)).
  - reflexivity.
  - discriminate.
  - discriminate.
  - reflexivity.
Defined.

Lemma read_chars_app (a b : nat) : forall j : jobu_state,
  read_chars (a + b) j
  = match read_chars a j with
    | Some (cs, j') =>
        match read_chars b j' with
        | Some (cs', j'') => Some ((cs ++ cs')%list, j'')
        | None => None
        end
    | None => None
    end.
Proof.
  induction a as [|a IH]; intros j.
  - cbn [Nat.add read_chars]. now destruct (read_chars b j) as [[cs' j'']|].
  - cbn [Nat.add read_chars]. destruct (jobu_get 2 true j) as [[c j']|];
      [|reflexivity].
    rewrite IH. destruct (read_chars a j') as [[cs j'']|]; [|reflexivity].
    now destruct (read_chars b j'') as [[cs' j3]|].
Qed.

(** One whole line, from a state with nothing left to read. *)
Lemma read_one_line (j : jobu_state) :
  well_formed j = true -> has_unread j = false ->
  read_chars 22 j
  = Some (line_codes,
          mk_jobu (snd (printf prompt (process j))) (Some line_block) 22).
Proof.
  intros Hwf Hun.
  destruct (jobu_get_cases true j Hwf) as (c & j' & E & _ & Hcases).
  change 22%nat with (S 21). cbn [read_chars]. rewrite (E 0%nat).
  destruct Hcases
    as [(Hun' & _)|[(_ & _ & -> & ->)|(_ & Hf & _)]];
    [congruence| |discriminate Hf].
  generalize (snd (printf prompt (process j))). intros p. reflexivity.
Qed.

(** X18: the reader never runs dry: from a state with nothing left to
    read, and memory available, reading 22 characters [k + 1] times over
    yields the line ["echo hello && sleep 1"] with its newline [k + 1]
    times, the prompt being printed once in front of each. *)
Theorem jobu_line_is_replayed (k : nat) : forall j : jobu_state,
  well_formed j = true -> has_unread j = false ->
  read_chars (S k * 22) j
  = Some (concat (repeat line_codes (S k)),
          mk_jobu (printed (S k) prompt (process j)) (Some line_block) 22).
Proof.
  induction k as [|k IH]; intros j Hwf Hun.
  - change (1 * 22)%nat with 22%nat. rewrite (read_one_line j Hwf Hun).
    cbn [repeat concat printed]. now rewrite app_nil_r.
  - change (S (S k) * 22)%nat with (22 + S k * 22)%nat.
    rewrite read_chars_app, (read_one_line j Hwf Hun).
    rewrite IH by reflexivity. reflexivity.
Qed.

Lemma jobu_line_is_replayed_witness :
  well_formed (unused (fresh 0)) = true /\
  has_unread (unused (fresh 0)) = false /\
  read_chars (3 * 22) (unused (fresh 0))
  = Some (concat (repeat line_codes 3),
          mk_jobu (printed 3 prompt (process (unused (fresh 0))))
                  (Some line_block) 22).
Proof.
  split; [reflexivity|]. split; [reflexivity|].
  apply (jobu_line_is_replayed 2 (unused (fresh 0))); reflexivity.
Defined.

End Reader.
